(** * Table ordering application: customization, cart and order lifecycle

    A shallow embedding of the client-side logic of the restaurant
    table-ordering application:

    - the dish customization dialog ([DishCustomizationDialog] and its kids
      variant, whose handlers are textually the same),
    - the cart kept by the menu pages ([Menu], [MenuKids] and the earlier
      options-less [Menu]),
    - the order status buttons of the staff page ([OrdersManagement]).

    React state is modelled by explicit state passing: a handler is a function
    from the state it closes over to the state it sets.  Prices and totals are
    JavaScript [number]s, binary64 floats ([float]), in euros; quantities,
    indices and display orders are whole numbers ([Z]); [string | null] and
    optional fields are [option]s. *)

From Stdlib Require Import ZArith QArith Lqa Floats DecimalString DecimalZ.
From stdpp Require Import base tactics option strings list gmap relations.

Local Open Scope Z_scope.
#[local] Set Warnings "-inexact-float".

(** ** JavaScript numbers *)

Module Number.

(** The rational a finite float stands for; none for NaN and the
    infinities. *)
Definition exactValue (x : float) : option Q :=
  match Prim2SF x with
  | S754_zero _ => Some (0 # 1)
  | S754_finite s m e =>
      Some (Qmult (if s then Qopp (Zpos m # 1) else (Zpos m # 1)) (Qpower (2 # 1) e))
  | S754_infinity _ => None
  | S754_nan => None
  end.

(** [x + y] does not round: the float sum stands for the sum of the two
    values. *)
Definition addsExactly (x y : float) : bool :=
  match exactValue x, exactValue y, exactValue (x + y)%float with
  | Some a, Some b, Some c => Qeq_bool c (Qplus a b)
  | _, _, _ => false
  end.

(** No addition rounds while [values] are added one after the other to
    [start]. *)
Fixpoint sumsExactly (start : float) (values : list float) : bool :=
  match values with
  | [] => true
  | x :: values => addsExactly start x && sumsExactly (start + x)%float values
  end.

(** The sum of the values a list of finite floats stands for. *)
Fixpoint exactSum (values : list float) : option Q :=
  match values with
  | [] => Some (0 # 1)
  | x :: values =>
      match exactValue x, exactSum values with
      | Some a, Some rest => Some (Qplus a rest)
      | _, _ => None
      end
  end.

(** A whole number as a [number]: the float nearest to it (the number
    itself below 2^53 in absolute value). *)
Definition ofZ (n : Z) : float :=
  SF2Prim (binary_normalize prec emax n 0 false).

End Number.

(** ** Catalog and selection records *)

(** [interface Dish]. *)
Record Dish := mkDish {
  dish_id : string;
  dish_name : string;
  description : option string;
  price : float;
  category : string;
  image_url : option string;
  is_available : bool
}.

(** [interface DishOption]. *)
Record DishOption := mkDishOption {
  option_id : string;
  option_name : string;
  price_modifier : float
}.

(** [interface DishOptionGroup]. *)
Record DishOptionGroup := mkDishOptionGroup {
  group_id : string;
  group_name : string;
  is_required : bool;
  allow_multiple : bool;
  options : list DishOption
}.

(** [interface SelectedOption]. *)
Record SelectedOption := mkSelectedOption {
  groupId : string;
  groupName : string;
  optionId : string;
  optionName : string;
  priceModifier : float
}.

(** Effects a handler can have besides setting state: a toast shown to the
    user, or a request sent to the backend (the table it addresses). *)
Inductive Effect :=
| Toast (title description : string)
| BackendRequest (table : string).

Definition is_backend (e : Effect) : bool :=
  match e with BackendRequest _ => true | Toast _ _ => false end.

(** ** The customization dialog *)

Module Dialog.

(** The object literal both selection handlers build. *)
Definition selected (group : DishOptionGroup) (option : DishOption) : SelectedOption :=
  {| groupId := group_id group;
     groupName := group_name group;
     optionId := option_id option;
     optionName := option_name option;
     priceModifier := price_modifier option |}.

(** [handleOptionToggle(group, option, checked)], as a function of the
    [selectedOptions] it closes over; the result is the argument of
    [setSelectedOptions]. *)
Definition handleOptionToggle (selectedOptions : list SelectedOption)
    (group : DishOptionGroup) (option : DishOption) (checked : bool)
    : list SelectedOption :=
  if checked then
    if allow_multiple group then
      selectedOptions ++ [selected group option]
    else
      filter (λ opt, groupId opt ≠ group_id group) selectedOptions
        ++ [selected group option]
  else
    filter (λ opt, optionId opt ≠ option_id option) selectedOptions.

(** [group.options.find((opt) => opt.id === optionId)]. *)
Definition find_option (group : DishOptionGroup) (optionId : string) : option DishOption :=
  List.find (λ opt, bool_decide (option_id opt = optionId)) (options group).

(** [handleRadioChange(group, optionId)]; an unknown option id returns early
    and sets nothing. *)
Definition handleRadioChange (selectedOptions : list SelectedOption)
    (group : DishOptionGroup) (optionId : string) : list SelectedOption :=
  match find_option group optionId with
  | None => selectedOptions
  | Some option =>
      filter (λ opt, groupId opt ≠ group_id group) selectedOptions
        ++ [selected group option]
  end.

(** [isGroupValid(group)]. *)
Definition isGroupValid (selectedOptions : list SelectedOption)
    (group : DishOptionGroup) : bool :=
  if negb (is_required group) then true
  else existsb (λ opt, bool_decide (groupId opt = group_id group)) selectedOptions.

(** [canAddToCart()]. *)
Definition canAddToCart (optionGroups : list DishOptionGroup)
    (selectedOptions : list SelectedOption) : bool :=
  forallb (λ group, isGroupValid selectedOptions group) optionGroups.

(** [getTotalPrice()]: [reduce] is a left fold from [0]; every [+] is the
    addition of binary64 floats. *)
Definition getTotalPrice (dish : option Dish)
    (selectedOptions : list SelectedOption) : float :=
  match dish with
  | None => 0%float
  | Some dish =>
      let basePrice := price dish in
      let modifiersTotal :=
        fold_left (λ sum opt, (sum + priceModifier opt)%float) selectedOptions 0%float in
      (basePrice + modifiersTotal)%float
  end.

(** The number of selections that reference a group. *)
Definition references (selectedOptions : list SelectedOption)
    (group : DishOptionGroup) : nat :=
  length (filter (λ opt, groupId opt = group_id group) selectedOptions).

(** Per-group validity in the words of the specification: a group that is not
    required is valid, a required single-select group needs exactly one
    selection, a required multi-select group at least one. *)
Definition spec_group_valid (selectedOptions : list SelectedOption)
    (group : DishOptionGroup) : bool :=
  if negb (is_required group) then true
  else if allow_multiple group then
    bool_decide (1 ≤ references selectedOptions group)%nat
  else
    bool_decide (references selectedOptions group = 1%nat).

(** State of the dialog component ([useState] cells). *)
Record State := mkState {
  optionGroups : list DishOptionGroup;
  selectedOptions : list SelectedOption;
  comment : string;
  isLoading : bool
}.

(** What the dialog receives from outside: its props and the [toast] hook.
    [W] is the state of everything outside the dialog (the page that owns the
    cart, and the log of effects); callbacks are functions on it. *)
Record Env (W : Type) := mkEnv {
  dish : option Dish;
  isOpen : bool;
  onClose : W → W;
  onAddToCart : Dish → list SelectedOption → string → W → W;
  emit : Effect → W → W
}.
Arguments dish {W} _.
Arguments isOpen {W} _.
Arguments onClose {W} _.
Arguments onAddToCart {W} _.
Arguments emit {W} _.

(** The dialog as it is mounted: every [useState] at its initial value. *)
Definition initial : State :=
  {| optionGroups := []; selectedOptions := []; comment := EmptyString;
     isLoading := false |}.

(** What the backend answers to [fetchOptionGroups()]: the request for the
    groups fails; or it yields [rows] groups and one of the requests for their
    options, which are all sent, fails; or every request is answered, with
    [groups] the dish's groups and their options. *)
Inductive Answer :=
| GroupsFailed
| OptionsFailed (rows : nat)
| Loaded (groups : list DishOptionGroup).

(** The [useEffect] that runs when the dialog opens on a dish, up to the
    first [await] of [fetchOptionGroups()]: [setIsLoading(true)], the request
    for the groups, then [setSelectedOptions([])] and
    [setComment(EmptyString)].  The option groups stay what they were. *)
Definition openStart {W} (env : Env W) (st : State) (w : W) : State * W :=
  match dish env with
  | Some _ =>
      if isOpen env then
        ({| optionGroups := optionGroups st; selectedOptions := [];
            comment := EmptyString; isLoading := true |},
         emit env (BackendRequest "dish_option_groups") w)
      else (st, w)
  | None => (st, w)
  end.

(** The rest of [fetchOptionGroups()], run when the answer arrives: one
    request for the options of each group; [setOptionGroups] when all were
    answered, a toast when one failed; [setIsLoading(false)] at the end. *)
Definition fetchDone {W} (env : Env W) (answer : Answer) (st : State) (w : W)
    : State * W :=
  match answer with
  | GroupsFailed =>
      ({| optionGroups := optionGroups st; selectedOptions := selectedOptions st;
          comment := comment st; isLoading := false |},
       emit env (Toast "Erreur" "Impossible de charger les options") w)
  | OptionsFailed rows =>
      ({| optionGroups := optionGroups st; selectedOptions := selectedOptions st;
          comment := comment st; isLoading := false |},
       emit env (Toast "Erreur" "Impossible de charger les options")
         (Nat.iter rows (emit env (BackendRequest "dish_options")) w))
  | Loaded groups =>
      ({| optionGroups := groups; selectedOptions := selectedOptions st;
          comment := comment st; isLoading := false |},
       Nat.iter (length groups) (emit env (BackendRequest "dish_options")) w)
  end.

(** [handleAddToCart()].  The handler calls no setter of the dialog's own
    state, so it returns the dialog state it was given. *)
Definition handleAddToCart {W} (env : Env W) (st : State) (w : W) : State * W :=
  match dish env with
  | None => (st, w)
  | Some dish =>
      if negb (canAddToCart (optionGroups st) (selectedOptions st)) then
        (st, emit env (Toast "Options manquantes"
                         "Veuillez sélectionner toutes les options obligatoires") w)
      else
        (st, onClose env (onAddToCart env dish (selectedOptions st) (comment st) w))
  end.

(** A selection update issued by the interface: a checkbox or kids button
    ([handleOptionToggle]) or a radio button ([handleRadioChange]). *)
Inductive Update :=
| Toggle (group : DishOptionGroup) (option : DishOption) (checked : bool)
| Radio (group : DishOptionGroup) (optionId : string).

Definition update (selectedOptions : list SelectedOption) (u : Update)
    : list SelectedOption :=
  match u with
  | Toggle group option checked => handleOptionToggle selectedOptions group option checked
  | Radio group optionId => handleRadioChange selectedOptions group optionId
  end.

(** The interface renders its controls from the dish's option groups: an
    update names one of these groups and, for a toggle, one of its options. *)
Definition offered (optionGroups : list DishOptionGroup) (u : Update) : Prop :=
  match u with
  | Toggle group option _ => group ∈ optionGroups ∧ option ∈ options group
  | Radio group _ => group ∈ optionGroups
  end.

(** Selections reachable from the empty selection set when the dialog opens. *)
Inductive reachable (optionGroups : list DishOptionGroup)
    : list SelectedOption → Prop :=
| reachable_open : reachable optionGroups []
| reachable_update sel u :
    reachable optionGroups sel → offered optionGroups u →
    reachable optionGroups (update sel u).

(** The catalog rows behind the option groups: [id] is the primary key of
    [dish_option_groups] and of [dish_options], and an option row belongs to
    one group. *)
Definition catalog_wf (optionGroups : list DishOptionGroup) : Prop :=
  NoDup (group_id <$> optionGroups)
  ∧ NoDup (option_id <$> (optionGroups ≫= options)).

(** The [checked] of an option's checkbox, and [isSelected] of the kids
    dialog: [selectedOptions.some((opt) => opt.optionId === option.id)]. *)
Definition isSelected (selectedOptions : list SelectedOption)
    (option : DishOption) : bool :=
  existsb (λ opt, bool_decide (optionId opt = option_id option)) selectedOptions.

(** The [value] of a group's radio buttons:
    [selectedOptions.find((opt) => opt.groupId === group.id)?.optionId ||]
    the empty string (no selection found, or an empty option id). *)
Definition radioValue (selectedOptions : list SelectedOption)
    (group : DishOptionGroup) : string :=
  match List.find (λ opt, bool_decide (groupId opt = group_id group)) selectedOptions with
  | Some opt => if bool_decide (optionId opt = EmptyString) then EmptyString else optionId opt
  | None => EmptyString
  end.

(** The [onClick] of an option button of the kids dialog:
    [handleOptionToggle(group, option, !isSelected)]. *)
Definition kidsClick (selectedOptions : list SelectedOption)
    (group : DishOptionGroup) (option : DishOption) : list SelectedOption :=
  handleOptionToggle selectedOptions group option (negb (isSelected selectedOptions option)).

(** Selections of the kids dialog: from the empty set by clicks on option
    buttons. *)
Inductive kidsReachable : list SelectedOption → Prop :=
| kidsReachable_open : kidsReachable []
| kidsReachable_click sel group option :
    kidsReachable sel → kidsReachable (kidsClick sel group option).

End Dialog.

(** ** The cart of the menu page *)

(** Array [filter] and [map] with the element's index. *)
Fixpoint ifilter {A} (p : nat → A → bool) (l : list A) : list A :=
  match l with
  | [] => []
  | x :: l => (if p 0%nat x then [x] else []) ++ ifilter (p ∘ S) l
  end.

(** [[...new Set(values)]]: the distinct values in the order of their first
    occurrence. *)
Definition uniq (values : list string) : list string :=
  foldl (λ seen x, if bool_decide (x ∈ seen) then seen else seen ++ [x]) [] values.

Module Menu.

(** [interface CartItem extends Dish]: the dish's fields (copied by the
    spread [...dish]) are kept together in [dish]. *)
Record CartItem := mkCartItem {
  dish : Dish;
  quantity : Z;
  comment : option string;
  selectedOptions : option (list SelectedOption)
}.

(** [addToCart(dish, selectedOptions = [], comment = EmptyString)]; an omitted
    argument is [None].  The function of [prev] is the updater passed to
    [setCart]; the second component is the toast. *)
Definition addToCart (prev : list CartItem) (dish : Dish)
    (selectedOptions : option (list SelectedOption)) (comment : option string)
    : list CartItem * list Effect :=
  let selectedOptions := default [] selectedOptions in
  let comment := default EmptyString comment in
  (prev ++ [ {| dish := dish;
                quantity := 1;
                selectedOptions := Some selectedOptions;
                comment := if bool_decide (comment = EmptyString) then None else Some comment |} ],
   [Toast "Ajouté au panier" (dish_name dish +:+ " a été ajouté")]).

(** [updateCartItem(itemIndex, quantity, comment?)]. *)
Definition updateCartItem (prev : list CartItem) (itemIndex : Z) (quantity : Z)
    (comment : option string) : list CartItem :=
  if bool_decide (quantity = 0) then
    ifilter (λ idx _, negb (bool_decide (Z.of_nat idx = itemIndex))) prev
  else
    imap (λ idx item,
            if bool_decide (Z.of_nat idx = itemIndex)
            then {| dish := dish item; selectedOptions := selectedOptions item;
                    quantity := quantity; comment := comment |}
            else item) prev.

(** [removeFromCart(itemIndex)]. *)
Definition removeFromCart (prev : list CartItem) (itemIndex : Z) : list CartItem :=
  ifilter (λ idx _, negb (bool_decide (Z.of_nat idx = itemIndex))) prev.

(** [getTotalItems()]. *)
Definition getTotalItems (cart : list CartItem) : Z :=
  fold_left (λ sum item, sum + quantity item) cart 0.

(** State of the page around the dialog, with the log of effects. *)
Record State := mkState {
  cart : list CartItem;
  isCartOpen : bool;
  selectedDish : option Dish;
  isCustomizationOpen : bool;
  effects : list Effect
}.

Definition log (e : Effect) (w : State) : State :=
  {| cart := cart w; isCartOpen := isCartOpen w; selectedDish := selectedDish w;
     isCustomizationOpen := isCustomizationOpen w; effects := effects w ++ [e] |}.

(** [handleDishClick(dish)]. *)
Definition handleDishClick (dish : Dish) (w : State) : State :=
  {| cart := cart w; isCartOpen := isCartOpen w; selectedDish := Some dish;
     isCustomizationOpen := true; effects := effects w |}.

(** The props the page gives the dialog:
    [dish={selectedDish} isOpen={isCustomizationOpen}
     onClose={() => setIsCustomizationOpen(false)} onAddToCart={addToCart}]. *)
Definition dialogEnv (w : State) : Dialog.Env State :=
  {| Dialog.dish := selectedDish w;
     Dialog.isOpen := isCustomizationOpen w;
     Dialog.onClose := λ w,
       {| cart := cart w; isCartOpen := isCartOpen w; selectedDish := selectedDish w;
          isCustomizationOpen := false; effects := effects w |};
     Dialog.onAddToCart := λ dish selectedOptions comment w,
       let '(cart', toasts) := addToCart (cart w) dish (Some selectedOptions) (Some comment) in
       {| cart := cart'; isCartOpen := isCartOpen w; selectedDish := selectedDish w;
          isCustomizationOpen := isCustomizationOpen w;
          effects := effects w ++ toasts |};
     Dialog.emit := log |}.

(** The page with its dialog, and a click on the dialog's add button. *)
Definition Page : Type := Dialog.State * State.

Definition clickAdd (pg : Page) : Page :=
  Dialog.handleAddToCart (dialogEnv pg.2) pg.1 pg.2.

(** The page as it is mounted, with an empty log of effects. *)
Definition initial : State :=
  {| cart := []; isCartOpen := false; selectedDish := None;
     isCustomizationOpen := false; effects := [] |}.

(** A click on a dish card: [handleDishClick], then the dialog's effect on
    its new props. *)
Definition openDish (dish : Dish) (pg : Page) : Page :=
  let w := handleDishClick dish pg.2 in
  Dialog.openStart (dialogEnv w) pg.1 w.

(** The backend's answer to the dialog's requests arrives. *)
Definition answered (answer : Dialog.Answer) (pg : Page) : Page :=
  Dialog.fetchDone (dialogEnv pg.2) answer pg.1 pg.2.

(** [categories]: [[...new Set(dishes.map((dish) => dish.category))]]. *)
Definition categories (dishes : list Dish) : list string :=
  uniq (category <$> dishes).

(** The menu as rendered: one section per category, holding
    [dishes.filter((dish) => dish.category === category)], one card each. *)
Definition sections (dishes : list Dish) : list (string * list Dish) :=
  (λ c, (c, filter (λ dish, category dish = c) dishes)) <$> categories dishes.

End Menu.

(** The kids menu page keeps its cart with the same three functions. *)
Module MenuKids.

Definition addToCart (prev : list Menu.CartItem) (dish : Dish)
    (selectedOptions : option (list SelectedOption)) (comment : option string)
    : list Menu.CartItem * list Effect :=
  let selectedOptions := default [] selectedOptions in
  let comment := default EmptyString comment in
  (prev ++ [ {| Menu.dish := dish;
                Menu.quantity := 1;
                Menu.selectedOptions := Some selectedOptions;
                Menu.comment := if bool_decide (comment = EmptyString) then None else Some comment |} ],
   [Toast "Ajouté au panier" (dish_name dish +:+ " a été ajouté")]).

Definition updateCartItem (prev : list Menu.CartItem) (itemIndex : Z) (quantity : Z)
    (comment : option string) : list Menu.CartItem :=
  if bool_decide (quantity = 0) then
    ifilter (λ idx _, negb (bool_decide (Z.of_nat idx = itemIndex))) prev
  else
    imap (λ idx item,
            if bool_decide (Z.of_nat idx = itemIndex)
            then {| Menu.dish := Menu.dish item;
                    Menu.selectedOptions := Menu.selectedOptions item;
                    Menu.quantity := quantity; Menu.comment := comment |}
            else item) prev.

Definition removeFromCart (prev : list Menu.CartItem) (itemIndex : Z)
    : list Menu.CartItem :=
  ifilter (λ idx _, negb (bool_decide (Z.of_nat idx = itemIndex))) prev.

(** The kids menu as rendered: for each category the button that opens
    [dishes.find((d) => d.category === category)]; a category without such a
    dish renders nothing. *)
Definition buttons (dishes : list Dish) : list (string * Dish) :=
  omap (λ c,
          match List.find (λ d, bool_decide (category d = c)) dishes with
          | Some dish => Some (c, dish)
          | None => None
          end)
       (Menu.categories dishes).

End MenuKids.

(** The earlier menu page, without options: its cart is keyed by dish id. *)
Module MenuPlain.

(** [interface CartItem extends Dish] of that page. *)
Record CartItem := mkCartItem {
  dish : Dish;
  quantity : Z;
  comment : option string
}.

(** [addToCart(dish)]. *)
Definition addToCart (prev : list CartItem) (dish : Dish)
    : list CartItem * list Effect :=
  (match List.find (λ item, bool_decide (dish_id (MenuPlain.dish item) = dish_id dish)) prev with
   | Some existing =>
       (λ item,
          if bool_decide (dish_id (MenuPlain.dish item) = dish_id dish)
          then {| dish := MenuPlain.dish item; comment := comment item;
                  quantity := quantity item + 1 |}
          else item) <$> prev
   | None => prev ++ [ {| dish := dish; quantity := 1; comment := None |} ]
   end,
   [Toast "Ajouté au panier" (dish_name dish +:+ " a été ajouté")]).

(** [removeFromCart(dishId)]. *)
Definition removeFromCart (prev : list CartItem) (dishId : string) : list CartItem :=
  filter (λ item, dish_id (dish item) ≠ dishId) prev.

(** [updateCartItem(dishId, quantity, comment?)]. *)
Definition updateCartItem (prev : list CartItem) (dishId : string) (quantity : Z)
    (comment : option string) : list CartItem :=
  if bool_decide (quantity = 0) then
    filter (λ item, dish_id (dish item) ≠ dishId) prev
  else
    (λ item,
       if bool_decide (dish_id (dish item) = dishId)
       then {| dish := dish item; quantity := quantity; comment := comment |}
       else item) <$> prev.

(** [getTotalItems()]. *)
Definition getTotalItems (cart : list CartItem) : Z :=
  fold_left (λ sum item, sum + quantity item) cart 0.

End MenuPlain.

(** ** Order status on the staff page *)

Module Orders.

(** [type OrderStatus]. *)
Inductive OrderStatus := received | preparing | ready | served | paid.

#[global] Instance OrderStatus_eq_dec : EqDecision OrderStatus.
Proof. solve_decision. Defined.

(** [interface Order] (the joined rows [order_items] and [tables] are only
    displayed and are left out). *)
Record Order := mkOrder {
  id : string;
  table_id : string;
  total : float;
  status : OrderStatus;
  created_at : string
}.

Definition set_status (newStatus : OrderStatus) (order : Order) : Order :=
  {| id := id order; table_id := table_id order; total := total order;
     status := newStatus; created_at := created_at order |}.

(** The buttons rendered for an order: each of the four conditional blocks
    contributes its button when its test on [order.status] holds.  A button
    is given by the arguments of the [updateOrderStatus] call in its
    [onClick]. *)
Definition statusButtons (order : Order) : list (string * OrderStatus) :=
  (if bool_decide (status order = received) then [(id order, preparing)] else [])
  ++ (if bool_decide (status order = preparing) then [(id order, ready)] else [])
  ++ (if bool_decide (status order = ready) then [(id order, served)] else [])
  ++ (if bool_decide (status order = served) then [(id order, paid)] else []).

(** [updateOrderStatus(orderId, newStatus)] against the [orders] table, keyed
    by its primary key; [ok] tells whether the backend accepted the update.
    On success the page shows a toast and fetches the orders again. *)
Definition updateOrderStatus (db : gmap string Order) (orderId : string)
    (newStatus : OrderStatus) (ok : bool) : gmap string Order * list Effect :=
  if ok then
    (alter (set_status newStatus) orderId db,
     [BackendRequest "orders"; Toast "Statut mis à jour" EmptyString;
      BackendRequest "orders"])
  else
    (db, [BackendRequest "orders"; Toast "Erreur lors de la mise à jour" EmptyString]).



(** The lifecycle order of the specification:
    received, preparing, ready, served, paid. *)
Definition rank (s : OrderStatus) : nat :=
  match s with
  | received => 0 | preparing => 1 | ready => 2 | served => 3 | paid => 4
  end.

Definition next (s : OrderStatus) : option OrderStatus :=
  match s with
  | received => Some preparing
  | preparing => Some ready
  | ready => Some served
  | served => Some paid
  | paid => None
  end.

End Orders.

(** ** Pricing of cart lines and submission *)

Module CartSheet.

Definition sumZ (l : list Z) : Z := foldr Z.add 0 l.

(** Modelled from the spec: the unit price of a cart line; the cart sheet
    component that prices the lines is not among the sources.  The unit price
    is the dish base price plus the sum of the selected options' price
    modifiers, added as the dialog adds them: in numbers, in the order of the
    selection. *)
Definition unitPrice (item : Menu.CartItem) : float :=
  (price (Menu.dish item)
   + fold_left (λ sum opt, sum + priceModifier opt)
       (default [] (Menu.selectedOptions item)) 0)%float.

(** Modelled from the spec: the subtotal of a cart line, computed by the
    missing cart sheet: (dish price + sum of selected modifiers) × quantity,
    a product of numbers. *)
Definition subtotal (item : Menu.CartItem) : float :=
  (unitPrice item * Number.ofZ (Menu.quantity item))%float.


End CartSheet.

(** ** Tables on the staff page *)

Module Tables.

(** [interface Table]. *)
Record Table := mkTable {
  id : string;
  table_number : Z;
  qr_code_data : string;
  is_active : bool
}.

Definition set_active (active : bool) (table : Table) : Table :=
  {| id := id table; table_number := table_number table;
     qr_code_data := qr_code_data table; is_active := active |}.

(** [toggleActive(id, currentState)] against the [tables] table, keyed by its
    primary key; [error] is the backend's answer ([None]: accepted), its
    content the error's message. *)
Definition toggleActive (db : gmap string Table) (id : string)
    (currentState : bool) (error : option string)
    : gmap string Table * list Effect :=
  match error with
  | Some message => (db, [BackendRequest "tables"; Toast message EmptyString])
  | None =>
      (alter (set_active (negb currentState)) id db,
       [BackendRequest "tables"; Toast "Table mise à jour" EmptyString;
        BackendRequest "tables"])
  end.

End Tables.

(** ** The dish form of the staff page *)

Module Dishes.

Section Form.
(** JavaScript numbers and the two conversions the form uses:
    [Number(x).toString()] and [parseFloat(s)]. *)
Context {number : Type}.
Variable toString : number → string.
Variable parseFloat : string → number.

(** The fields of a [dishes] row the form reads. *)
Record Row := mkRow {
  id : string;
  name : string;
  description : option string;
  price : number;
  category : string;
  is_available : option bool
}.

(** [formData]. *)
Record FormData := mkFormData {
  form_name : string;
  form_description : string;
  form_price : string;
  form_category : string;
  form_is_available : bool
}.

(** [dishData], the object [handleSubmit] inserts or writes over the edited
    row. *)
Record DishData := mkDishData {
  data_name : string;
  data_description : option string;
  data_price : number;
  data_category : string;
  data_is_available : bool;
  data_restaurant_id : string
}.

(** The form [handleEdit(dish)] sets. *)
Definition handleEdit (dish : Row) : FormData :=
  {| form_name := name dish;
     form_description := default EmptyString (description dish);
     form_price := toString (price dish);
     form_category := category dish;
     form_is_available := default true (is_available dish) |}.

(** The [dishData] of [handleSubmit]. *)
Definition dishData (formData : FormData) : DishData :=
  {| data_name := form_name formData;
     data_description :=
       if bool_decide (form_description formData = EmptyString) then None
       else Some (form_description formData);
     data_price := parseFloat (form_price formData);
     data_category := form_category formData;
     data_is_available := form_is_available formData;
     data_restaurant_id := "00000000-0000-0000-0000-000000000000" |}.

End Form.

End Dishes.

(** ** Option groups on the staff page *)

Module Options.

(** [interface CategoryOptionGroup] and [interface CategoryOption]. *)
Record CategoryOptionGroup := mkGroup {
  id : string;
  category : string;
  name : string;
  selection_type : string;
  is_required : bool;
  display_order : Z
}.

Record CategoryOption := mkOption {
  option_id : string;
  option_group_id : string;
  option_name : string;
  extra_price : float;
  option_display_order : Z
}.

(** The cards as rendered: under each group,
    [options.filter((opt) => opt.option_group_id === group.id)]. *)
Definition cards (optionGroups : list CategoryOptionGroup)
    (options : list CategoryOption)
    : list (CategoryOptionGroup * list CategoryOption) :=
  (λ group, (group, filter (λ opt, option_group_id opt = id group) options))
    <$> optionGroups.

End Options.

(** ** Sample data: the burger of the specification's scenario *)

Module Sample.

Definition brioche : DishOption :=
  {| option_id := "o-brioche"; option_name := "Brioche"; price_modifier := 0%float |}.
Definition multigrain : DishOption :=
  {| option_id := "o-multigrain"; option_name := "Multigrain"; price_modifier := 0.5%float |}.
Definition ketchup : DishOption :=
  {| option_id := "o-ketchup"; option_name := "Ketchup"; price_modifier := 0%float |}.
Definition mayonnaise : DishOption :=
  {| option_id := "o-mayonnaise"; option_name := "Mayonnaise"; price_modifier := 0.2%float |}.

(** A required single-select group and an optional multi-select group. *)
Definition bread : DishOptionGroup :=
  {| group_id := "g-bread"; group_name := "Bread"; is_required := true;
     allow_multiple := false; options := [brioche; multigrain] |}.
Definition sauces : DishOptionGroup :=
  {| group_id := "g-sauces"; group_name := "Sauces"; is_required := false;
     allow_multiple := true; options := [ketchup; mayonnaise] |}.

Definition burger : Dish :=
  {| dish_id := "d-burger"; dish_name := "Burger"; description := None;
     price := 8%float; category := "burgers"; image_url := None;
     is_available := true |}.
Definition fries : Dish :=
  {| dish_id := "d-fries"; dish_name := "Fries"; description := None;
     price := 3.5%float; category := "sides"; image_url := None;
     is_available := true |}.

Definition line (d : Dish) (q : Z) (c : option string)
    (sel : list SelectedOption) : Menu.CartItem :=
  {| Menu.dish := d; Menu.quantity := q; Menu.comment := c;
     Menu.selectedOptions := Some sel |}.

Definition cart2 : list Menu.CartItem :=
  [ line burger 1 (Some "no onions") [Dialog.selected bread multigrain];
    line fries 2 None [] ].

(** The dialog open on the burger with nothing selected yet, in front of a
    page whose cart holds the two lines above. *)
Definition dialog0 : Dialog.State :=
  {| Dialog.optionGroups := [bread; sauces]; Dialog.selectedOptions := [];
     Dialog.comment := "well done"; Dialog.isLoading := false |}.
Definition page0 : Menu.State :=
  {| Menu.cart := cart2; Menu.isCartOpen := false;
     Menu.selectedDish := Some burger; Menu.isCustomizationOpen := true;
     Menu.effects := [BackendRequest "dishes"] |}.

(** The page right after a click on the burger's card, the backend not
    having answered yet. *)
Definition opened : Menu.Page :=
  Menu.openDish burger (Dialog.initial, Menu.initial).

Definition plain_line (d : Dish) (q : Z) : MenuPlain.CartItem :=
  {| MenuPlain.dish := d; MenuPlain.quantity := q; MenuPlain.comment := None |}.

Definition order7 (s : Orders.OrderStatus) : Orders.Order :=
  {| Orders.id := "order-7"; Orders.table_id := "table-3"; Orders.total := 22.5%float;
     Orders.status := s; Orders.created_at := "2024-05-01T12:00:00Z" |}.

(** A dish and an option whose prices are not binary fractions. *)
Definition wrap : Dish :=
  {| dish_id := "d-wrap"; dish_name := "Wrap"; description := None;
     price := 7.9%float; category := "wraps"; image_url := None;
     is_available := true |}.
Definition cheese : DishOption :=
  {| option_id := "o-cheese"; option_name := "Cheese"; price_modifier := 0.1%float |}.
Definition toppings : DishOptionGroup :=
  {| group_id := "g-toppings"; group_name := "Toppings"; is_required := false;
     allow_multiple := true; options := [cheese] |}.

Definition cheeseburger : Dish :=
  {| dish_id := "d-cheeseburger"; dish_name := "Cheeseburger"; description := None;
     price := 9%float; category := "burgers"; image_url := None;
     is_available := true |}.

Definition table3 (active : bool) : Tables.Table :=
  {| Tables.id := "t-3"; Tables.table_number := 3;
     Tables.qr_code_data := "table-3"; Tables.is_active := active |}.

Definition breadGroup : Options.CategoryOptionGroup :=
  {| Options.id := "cg-bread"; Options.category := "burgers";
     Options.name := "Bread"; Options.selection_type := "single";
     Options.is_required := true; Options.display_order := 0 |}.
Definition ryeOption : Options.CategoryOption :=
  {| Options.option_id := "co-rye"; Options.option_group_id := "cg-bread";
     Options.option_name := "Rye"; Options.extra_price := 0.3%float;
     Options.option_display_order := 0 |}.
Definition strayOption : Options.CategoryOption :=
  {| Options.option_id := "co-stray"; Options.option_group_id := "cg-gone";
     Options.option_name := "Stray"; Options.extra_price := 0%float;
     Options.option_display_order := 0 |}.

(** Whole numbers and their decimal notation, for the form's conversions. *)
Definition showZ (n : Z) : string := NilZero.string_of_int (Z.to_int n).
Definition readZ (s : string) : Z :=
  match NilZero.int_of_string s with
  | Some i => Z.of_int i
  | None => 0
  end.

Definition soupRow : Dishes.Row :=
  {| Dishes.id := "d-soup"; Dishes.name := "Soup"; Dishes.description := None;
     Dishes.price := 6; Dishes.category := "starters";
     Dishes.is_available := None |}.


End Sample.

(** * Properties *)

(** ** Arrays filtered and mapped by index *)

Section IndexedLists.
Context {A : Type}.
Implicit Types (l : list A) (n : nat).

Lemma ifilter_ext (p q : nat → A → bool) l :
  (∀ idx x, p idx x = q idx x) → ifilter p l = ifilter q l.
Proof.
  revert p q. induction l as [|x l IH]; intros p q Hpq; [done|].
  simpl. rewrite Hpq. f_equal. apply IH. intros idx y. apply Hpq.
Qed.

Lemma ifilter_all (p : nat → A → bool) l :
  (∀ idx x, p idx x = true) → ifilter p l = l.
Proof.
  revert p. induction l as [|x l IH]; intros p Hp; [done|].
  simpl. rewrite Hp. simpl. f_equal. apply IH. intros idx y. apply Hp.
Qed.

(** Keeping every index but [n] deletes position [n]. *)
Lemma ifilter_other_index n l :
  ifilter (λ idx _, negb (bool_decide (idx = n))) l = delete n l.
Proof.
  revert n. induction l as [|x l IH]; intros n; [done|].
  destruct n as [|n]; simpl.
  - apply ifilter_all. intros idx y. unfold compose.
    by rewrite bool_decide_eq_false_2.
  - f_equal. rewrite <- IH. apply ifilter_ext. intros idx y. unfold compose.
    f_equal. apply bool_decide_ext. lia.
Qed.

Lemma delete_beyond n l : (length l ≤ n)%nat → delete n l = l.
Proof.
  revert n. induction l as [|x l IH]; intros n Hn; [done|].
  destruct n as [|n]; simpl in *; [lia|]. f_equal. apply IH. lia.
Qed.

Lemma delete_shorter n l : (n < length l)%nat → length (delete n l) = (length l - 1)%nat.
Proof. intros Hn. apply length_delete. by apply lookup_lt_is_Some. Qed.

(** Deleting the same position again changes nothing exactly when no item
    followed the deleted one. *)
Lemma delete_twice n l :
  delete n (delete n l) = delete n l ↔ (length l ≤ n + 1)%nat.
Proof.
  split.
  - intros Heq. destruct (decide (length l ≤ n + 1)%nat) as [|Hlt]; [done|].
    exfalso. apply (f_equal length) in Heq.
    rewrite (delete_shorter n (delete n l)) in Heq.
    + rewrite delete_shorter in Heq; lia.
    + rewrite delete_shorter; lia.
  - intros Hn. destruct (decide (n < length l)%nat) as [Hlt|Hge].
    + apply delete_beyond. rewrite delete_shorter; lia.
    + rewrite (delete_beyond n l) by lia. apply delete_beyond. lia.
Qed.
End IndexedLists.

(** ** The cart *)

Section Cart.
Implicit Types (prev : list Menu.CartItem) (itemIndex quantity : Z)
  (comment : option string).

Lemma kids_updateCartItem prev itemIndex quantity comment :
  MenuKids.updateCartItem prev itemIndex quantity comment
  = Menu.updateCartItem prev itemIndex quantity comment.
Proof. reflexivity. Qed.

Lemma kids_removeFromCart prev itemIndex :
  MenuKids.removeFromCart prev itemIndex = Menu.removeFromCart prev itemIndex.
Proof. reflexivity. Qed.

Lemma kids_addToCart prev d sel c :
  MenuKids.addToCart prev d sel c = Menu.addToCart prev d sel c.
Proof. reflexivity. Qed.

(** Removal by index, in terms of the position deleted. *)
Lemma removeFromCart_delete prev itemIndex :
  Menu.removeFromCart prev itemIndex
  = if decide (0 ≤ itemIndex) then delete (Z.to_nat itemIndex) prev else prev.
Proof.
  unfold Menu.removeFromCart. case_decide as Hi.
  - rewrite <- ifilter_other_index. apply ifilter_ext. intros idx y.
    f_equal. apply bool_decide_ext. lia.
  - apply ifilter_all. intros idx y. rewrite bool_decide_eq_false_2; [done|lia].
Qed.

Lemma removeFromCart_outside prev itemIndex :
  ¬ (0 ≤ itemIndex < Z.of_nat (length prev)) →
  Menu.removeFromCart prev itemIndex = prev.
Proof.
  intros Hout. rewrite removeFromCart_delete. case_decide; [|done].
  apply delete_beyond. lia.
Qed.

(** The options-less page removes by dish id, so there a second removal
    finds nothing left to remove. *)
Lemma plain_removeFromCart_twice (plain : list MenuPlain.CartItem) (dishId : string) :
  MenuPlain.removeFromCart (MenuPlain.removeFromCart plain dishId) dishId
  = MenuPlain.removeFromCart plain dishId.
Proof.
  unfold MenuPlain.removeFromCart. rewrite list_filter_filter.
  apply list_filter_iff. intros item. tauto.
Qed.

Lemma updateCartItem_zero prev itemIndex comment :
  Menu.updateCartItem prev itemIndex 0 comment = Menu.removeFromCart prev itemIndex.
Proof. reflexivity. Qed.

(** What an update with a quantity other than [0] leaves at each position. *)
Lemma updateCartItem_lookup prev itemIndex quantity comment (j : nat) :
  quantity ≠ 0 →
  Menu.updateCartItem prev itemIndex quantity comment !! j
  = (λ item,
       if bool_decide (Z.of_nat j = itemIndex)
       then {| Menu.dish := Menu.dish item;
               Menu.selectedOptions := Menu.selectedOptions item;
               Menu.quantity := quantity; Menu.comment := comment |}
       else item) <$> prev !! j.
Proof.
  intros Hq. unfold Menu.updateCartItem.
  rewrite bool_decide_eq_false_2 by done. apply list_lookup_imap.
Qed.

Lemma updateCartItem_length prev itemIndex quantity comment :
  quantity ≠ 0 →
  length (Menu.updateCartItem prev itemIndex quantity comment) = length prev.
Proof.
  intros Hq. unfold Menu.updateCartItem.
  rewrite bool_decide_eq_false_2 by done. apply length_imap.
Qed.

Lemma updateCartItem_outside prev itemIndex quantity comment :
  ¬ (0 ≤ itemIndex < Z.of_nat (length prev)) →
  Menu.updateCartItem prev itemIndex quantity comment = prev.
Proof.
  intros Hout. destruct (decide (quantity = 0)) as [->|Hq].
  - rewrite updateCartItem_zero. by apply removeFromCart_outside.
  - apply list_eq. intros j. rewrite updateCartItem_lookup by done.
    destruct (prev !! j) as [item|] eqn:Hj; [|done]. simpl.
    apply lookup_lt_Some in Hj.
    rewrite bool_decide_eq_false_2; [done|lia].
Qed.
End Cart.

(** C8, as stated, fails: on a cart of two lines, removing index 0 a second
    time removes the line that moved into position 0, so removing twice is
    not the same as removing once. *)
Lemma removeFromCart_twice_differs :
  Menu.removeFromCart Sample.cart2 0 = [Sample.line Sample.fries 2 None []]
  ∧ Menu.removeFromCart (Menu.removeFromCart Sample.cart2 0) 0 = []
  ∧ Menu.removeFromCart (Menu.removeFromCart Sample.cart2 0) 0
    ≠ Menu.removeFromCart Sample.cart2 0.
Proof. split_and!; [reflexivity..|]. vm_compute. discriminate. Qed.

(** C8 (amended): [updateCartItem] with quantity 0 yields the cart that
    [removeFromCart] yields for the same index; removing an existing index
    keeps the other lines in their order; either operation on an index that
    references no line leaves the cart as it is; and removing the same index a
    second time changes nothing exactly when no line followed the removed
    one (otherwise it removes the line that moved into the position). *)
Theorem update_zero_removes_and_second_removal
    (prev : list Menu.CartItem) (itemIndex quantity : Z) (comment : option string) :
  Menu.updateCartItem prev itemIndex 0 comment = Menu.removeFromCart prev itemIndex
  ∧ (0 ≤ itemIndex < Z.of_nat (length prev) →
       Menu.removeFromCart prev itemIndex
       = take (Z.to_nat itemIndex) prev ++ drop (S (Z.to_nat itemIndex)) prev)
  ∧ (¬ (0 ≤ itemIndex < Z.of_nat (length prev)) →
       Menu.removeFromCart prev itemIndex = prev
       ∧ Menu.updateCartItem prev itemIndex quantity comment = prev)
  ∧ (Menu.removeFromCart (Menu.removeFromCart prev itemIndex) itemIndex
       = Menu.removeFromCart prev itemIndex
     ↔ ¬ (0 ≤ itemIndex ∧ itemIndex + 1 < Z.of_nat (length prev))).
Proof.
  split_and!.
  - apply updateCartItem_zero.
  - intros Hin. rewrite removeFromCart_delete, decide_True by lia.
    apply delete_take_drop.
  - intros Hout. split.
    + by apply removeFromCart_outside.
    + by apply updateCartItem_outside.
  - rewrite !removeFromCart_delete. case_decide as Hi.
    + rewrite delete_twice. lia.
    + split; [lia|done].
Qed.

Lemma update_zero_removes_and_second_removal_witness :
  Menu.removeFromCart Sample.cart2 5 = Sample.cart2
  ∧ Menu.updateCartItem Sample.cart2 (-1) 3 None = Sample.cart2
  ∧ Menu.removeFromCart Sample.cart2 1
    = take 1 Sample.cart2 ++ drop 2 Sample.cart2.
Proof.
  split_and!.
  - apply (update_zero_removes_and_second_removal Sample.cart2 5 1 None).
    simpl. lia.
  - apply (update_zero_removes_and_second_removal Sample.cart2 (-1) 3 None).
    simpl. lia.
  - apply (update_zero_removes_and_second_removal Sample.cart2 1 1 None).
    simpl. lia.
Defined.

(** C9: an update with a positive quantity keeps the number of lines, keeps
    every line other than the addressed one as it is, and on the addressed
    line keeps the dish (with its price) and the selected options; the kids
    page's function is the same. *)
Theorem update_keeps_other_fields
    (prev : list Menu.CartItem) (itemIndex quantity : Z) (comment : option string) :
  0 < quantity →
  MenuKids.updateCartItem prev itemIndex quantity comment
  = Menu.updateCartItem prev itemIndex quantity comment
  ∧ length (Menu.updateCartItem prev itemIndex quantity comment) = length prev
  ∧ ∀ (j : nat) (item : Menu.CartItem), prev !! j = Some item →
      ∃ item',
        Menu.updateCartItem prev itemIndex quantity comment !! j = Some item'
        ∧ Menu.dish item' = Menu.dish item
        ∧ price (Menu.dish item') = price (Menu.dish item)
        ∧ Menu.selectedOptions item' = Menu.selectedOptions item
        ∧ (Z.of_nat j ≠ itemIndex → item' = item).
Proof.
  intros Hq. split_and!.
  - reflexivity.
  - apply updateCartItem_length. lia.
  - intros j item Hj. rewrite updateCartItem_lookup, Hj by lia. simpl.
    eexists. split; [reflexivity|].
    case_bool_decide; simpl; split_and!; try done.
Qed.

Lemma update_keeps_other_fields_witness :
  (∃ item',
     Menu.updateCartItem Sample.cart2 0 4 None !! 0%nat = Some item'
     ∧ Menu.dish item' = Sample.burger
     ∧ price (Menu.dish item') = 8%float
     ∧ Menu.selectedOptions item'
       = Some [Dialog.selected Sample.bread Sample.multigrain])
  ∧ Menu.updateCartItem Sample.cart2 0 4 None !! 1%nat
    = Some (Sample.line Sample.fries 2 None []).
Proof.
  assert (0 < 4) as Hq by lia.
  destruct (update_keeps_other_fields Sample.cart2 0 4 None Hq) as (_ & _ & H).
  split.
  - destruct (H 0%nat _ eq_refl) as (item' & Hitem' & Hdish & Hprice & Hsel & _).
    exists item'. by split_and!.
  - destruct (H 1%nat _ eq_refl) as (item' & Hitem' & _ & _ & _ & Hsame).
    rewrite Hitem'. f_equal. apply Hsame. simpl. lia.
Defined.

(** C10: on an existing line, an update with a positive quantity stores
    exactly the quantity and the comment it was called with, so a call
    without a comment ([None]) erases a comment stored before; the kids
    page's function is the same. *)
Theorem update_sets_comment
    (prev : list Menu.CartItem) (itemIndex quantity : Z) (comment : option string)
    (item : Menu.CartItem) :
  0 < quantity →
  0 ≤ itemIndex →
  prev !! Z.to_nat itemIndex = Some item →
  ∃ item',
    Menu.updateCartItem prev itemIndex quantity comment !! Z.to_nat itemIndex
      = Some item'
    ∧ MenuKids.updateCartItem prev itemIndex quantity comment !! Z.to_nat itemIndex
      = Some item'
    ∧ Menu.comment item' = comment
    ∧ Menu.quantity item' = quantity.
Proof.
  intros Hq Hi Hitem.
  pose proof (updateCartItem_lookup prev itemIndex quantity comment
                (Z.to_nat itemIndex)) as Hlookup.
  rewrite Hitem in Hlookup. simpl in Hlookup.
  rewrite bool_decide_eq_true_2 in Hlookup by lia.
  eexists. split_and!.
  - apply Hlookup. lia.
  - apply Hlookup. lia.
  - reflexivity.
  - reflexivity.
Qed.

Lemma update_sets_comment_witness :
  Menu.comment <$> Sample.cart2 !! 0%nat = Some (Some "no onions")
  ∧ ∃ item',
      Menu.updateCartItem Sample.cart2 0 2 None !! 0%nat = Some item'
      ∧ MenuKids.updateCartItem Sample.cart2 0 2 None !! 0%nat = Some item'
      ∧ Menu.comment item' = None
      ∧ Menu.quantity item' = 2.
Proof.
  split; [reflexivity|].
  apply (update_sets_comment Sample.cart2 0 2 None
           (Sample.line Sample.burger 1 (Some "no onions")
              [Dialog.selected Sample.bread Sample.multigrain])).
  - lia.
  - lia.
  - reflexivity.
Defined.

(** ** The catalog behind the option groups *)

Section Catalog.
Implicit Types (groups : list DishOptionGroup) (g : DishOptionGroup)
  (o : DishOption).

(** A primary key identifies its row. *)
Lemma group_id_identifies groups g1 g2 :
  NoDup (group_id <$> groups) →
  g1 ∈ groups → g2 ∈ groups → group_id g1 = group_id g2 → g1 = g2.
Proof.
  induction groups as [|g groups IH]; intros Hnd H1 H2 Hid.
  - by apply elem_of_nil in H1.
  - rewrite fmap_cons, NoDup_cons in Hnd. destruct Hnd as [Hg Hnd].
    apply elem_of_cons in H1 as [->|H1]; apply elem_of_cons in H2 as [->|H2].
    + done.
    + exfalso. apply Hg. rewrite Hid. by apply list_elem_of_fmap_2.
    + exfalso. apply Hg. rewrite <- Hid. by apply list_elem_of_fmap_2.
    + by apply IH.
Qed.

(** An option id occurs in one group only. *)
Lemma option_id_one_group groups g1 g2 o1 o2 :
  NoDup (option_id <$> (groups ≫= options)) →
  g1 ∈ groups → g2 ∈ groups → o1 ∈ options g1 → o2 ∈ options g2 →
  option_id o1 = option_id o2 → g1 = g2.
Proof.
  induction groups as [|g groups IH]; intros Hnd H1 H2 Ho1 Ho2 Hid.
  - by apply elem_of_nil in H1.
  - rewrite bind_cons, fmap_app, NoDup_app in Hnd.
    destruct Hnd as (_ & Hdisj & Hnd).
    assert (∀ g' o o', g' ∈ groups → o ∈ options g → o' ∈ options g' →
              option_id o ≠ option_id o') as Hsep.
    { intros g' o o' Hg' Ho Ho' Heq.
      apply (Hdisj (option_id o)); [by apply list_elem_of_fmap_2|].
      rewrite Heq. apply list_elem_of_fmap_2, list_elem_of_bind. eauto. }
    apply elem_of_cons in H1 as [->|H1]; apply elem_of_cons in H2 as [->|H2].
    + done.
    + by destruct (Hsep g2 o1 o2).
    + by destruct (Hsep g1 o2 o1).
    + by apply IH.
Qed.
End Catalog.

(** ** The selection set of the dialog *)

Section Selection.
Import Dialog.
Implicit Types (sel : list SelectedOption) (g : DishOptionGroup)
  (o : DishOption) (groups : list DishOptionGroup).

Lemma references_nil g : references [] g = 0%nat.
Proof. reflexivity. Qed.

Lemma references_app sel1 sel2 g :
  references (sel1 ++ sel2) g = (references sel1 g + references sel2 g)%nat.
Proof. unfold references. by rewrite filter_app, length_app. Qed.

Lemma references_selected g g' o :
  references [selected g' o] g
  = if decide (group_id g' = group_id g) then 1%nat else 0%nat.
Proof.
  unfold references. rewrite filter_cons, filter_nil. simpl.
  by case_decide.
Qed.

(** Filtering a selection set never adds references. *)
Lemma references_filter (P : SelectedOption → Prop) `{!∀ s, Decision (P s)} sel g :
  (references (filter P sel) g ≤ references sel g)%nat.
Proof.
  unfold references. induction sel as [|s sel IH]; [done|].
  rewrite (filter_cons P), (filter_cons (λ s, groupId s = group_id g) s sel).
  destruct (decide (P s)); [rewrite filter_cons|];
    destruct (decide (groupId s = group_id g)); simpl; lia.
Qed.

(** Dropping a group's selections leaves none for it. *)
Lemma references_dropped sel g :
  references (filter (λ s, groupId s ≠ group_id g) sel) g = 0%nat.
Proof.
  unfold references. rewrite list_filter_filter.
  induction sel as [|s sel IH]; [done|].
  rewrite filter_cons_False; [apply IH|]. intros [Heq Hne]. by apply Hne.
Qed.

(** The replacement both handlers perform on a single-select group. *)
Lemma references_replaced sel g o :
  references (filter (λ s, groupId s ≠ group_id g) sel ++ [selected g o]) g = 1%nat.
Proof.
  rewrite references_app, references_dropped, references_selected.
  by rewrite decide_True.
Qed.

Lemma references_replaced_other sel g g' o :
  group_id g' ≠ group_id g →
  (references (filter (λ s, groupId s ≠ group_id g') sel ++ [selected g' o]) g
   ≤ references sel g)%nat.
Proof.
  intros Hne. rewrite references_app, references_selected, decide_False by done.
  pose proof (references_filter (λ s, groupId s ≠ group_id g') sel g). lia.
Qed.

(** [some] on the group id is a count of at least one. *)
Lemma some_references sel g :
  existsb (λ opt, bool_decide (groupId opt = group_id g)) sel
  = bool_decide (1 ≤ references sel g)%nat.
Proof.
  induction sel as [|s sel IH].
  - reflexivity.
  - cbn [existsb]. rewrite IH. unfold references. rewrite filter_cons.
    destruct (decide (groupId s = group_id g)) as [Hs|Hs].
    + rewrite (bool_decide_eq_true_2 (groupId s = group_id g)) by done.
      cbn [orb length]. symmetry. apply bool_decide_eq_true_2. lia.
    + by rewrite (bool_decide_eq_false_2 (groupId s = group_id g)) by done.
Qed.

Lemma isGroupValid_references sel g :
  isGroupValid sel g = true
  ↔ is_required g = false ∨ (1 ≤ references sel g)%nat.
Proof.
  unfold isGroupValid. destruct (is_required g); simpl.
  - rewrite some_references, bool_decide_eq_true.
    split; [by right|]. by intros [?|?].
  - split; [by left|done].
Qed.

Lemma find_option_elem g optionId o :
  find_option g optionId = Some o → o ∈ options g ∧ option_id o = optionId.
Proof.
  unfold find_option. intros Hfind. apply find_some in Hfind as [Hin Hid].
  split; [by apply list_elem_of_In|]. by apply bool_decide_eq_true in Hid.
Qed.

(** Opening the dialog on a dish starts from the empty selection set, and
    the answer of the backend does not touch the selection. *)
Lemma openStart_selection {W} (env : Env W) (st : State) (w : W) (d : Dish) :
  dish env = Some d → isOpen env = true →
  selectedOptions (openStart env st w).1 = []
  ∧ ∀ answer st' w',
      selectedOptions (fetchDone env answer st' w').1 = selectedOptions st'.
Proof.
  intros Hdish Hopen. unfold openStart. rewrite Hdish, Hopen.
  split; [done|]. by intros [].
Qed.

(** Every reachable selection was built from a group of the dish and one
    of that group's options. *)
Lemma reachable_attributed groups sel :
  reachable groups sel →
  ∀ s, s ∈ sel → ∃ g o, g ∈ groups ∧ o ∈ options g ∧ s = selected g o.
Proof.
  induction 1 as [|sel u Hreach IH Hoff]; intros s Hs.
  - by apply elem_of_nil in Hs.
  - destruct u as [g o checked|g optionId]; simpl in *.
    + destruct Hoff as [Hg Ho]. unfold handleOptionToggle in Hs.
      destruct checked; [destruct (allow_multiple g)|].
      * apply elem_of_app in Hs as [Hs|Hs]; [by apply IH|].
        apply list_elem_of_singleton in Hs. eauto.
      * apply elem_of_app in Hs as [Hs|Hs].
        -- apply list_elem_of_filter in Hs as [_ Hs]. by apply IH.
        -- apply list_elem_of_singleton in Hs. eauto.
      * apply list_elem_of_filter in Hs as [_ Hs]. by apply IH.
    + unfold handleRadioChange in Hs.
      destruct (find_option g optionId) as [o|] eqn:Hfind; [|by apply IH].
      apply find_option_elem in Hfind as [Ho _].
      apply elem_of_app in Hs as [Hs|Hs].
      * apply list_elem_of_filter in Hs as [_ Hs]. by apply IH.
      * apply list_elem_of_singleton in Hs. eauto.
Qed.

(** Replacement keeps every single-select group at one selection at most. *)
Lemma reachable_single_select groups sel g :
  NoDup (group_id <$> groups) →
  reachable groups sel →
  g ∈ groups → allow_multiple g = false →
  (references sel g ≤ 1)%nat.
Proof.
  intros Hnd Hreach Hg Hsingle.
  induction Hreach as [|sel u Hreach IH Hoff].
  - rewrite references_nil. lia.
  - assert (∀ g' o, g' ∈ groups →
              (references (filter (λ s, groupId s ≠ group_id g') sel
                           ++ [selected g' o]) g ≤ 1)%nat) as Hreplace.
    { intros g' o Hg'. destruct (decide (group_id g' = group_id g)) as [Heq|Hne].
      - rewrite (group_id_identifies groups g' g) by done.
        by rewrite references_replaced.
      - pose proof (references_replaced_other sel g g' o Hne). lia. }
    destruct u as [g' o checked|g' optionId]; simpl in *.
    + destruct Hoff as [Hg' Ho]. unfold handleOptionToggle.
      destruct checked; [destruct (allow_multiple g') eqn:Hmulti|].
      * rewrite references_app, references_selected.
        case_decide as Heq; [|lia].
        rewrite (group_id_identifies groups g' g) in Hmulti by done.
        congruence.
      * by apply Hreplace.
      * pose proof (references_filter (λ s, optionId s ≠ option_id o) sel g). lia.
    + unfold handleRadioChange.
      destruct (find_option g' optionId) as [o|]; [|done].
      by apply Hreplace.
Qed.
End Selection.

(** ** Validity of option groups *)

Section Validity.
Import Dialog.
Implicit Types (sel : list SelectedOption) (g : DishOptionGroup)
  (groups : list DishOptionGroup).

Lemma sample_catalog_wf : catalog_wf [Sample.bread; Sample.sauces].
Proof. split; apply (bool_decide_unpack _); vm_compute; exact I. Qed.

Lemma canAddToCart_every groups sel :
  canAddToCart groups sel = true
  ↔ ∀ g, g ∈ groups → isGroupValid sel g = true.
Proof.
  unfold canAddToCart. rewrite forallb_forall.
  split; intros H g Hg; apply H; by apply list_elem_of_In.
Qed.

Lemma valid_matches_spec_when_single sel g :
  (allow_multiple g = false → (references sel g ≤ 1)%nat) →
  isGroupValid sel g = spec_group_valid sel g.
Proof.
  intros Hsingle. unfold isGroupValid, spec_group_valid.
  destruct (is_required g); [|done]. cbn [negb].
  rewrite some_references. destruct (allow_multiple g); [done|].
  apply bool_decide_ext. specialize (Hsingle eq_refl). lia.
Qed.

(** C2: on every selection set the dialog can hold (reached from the
    empty one by updates on the rendered groups, rows of a table keyed by
    [id]), [isGroupValid] is the three-case definition: a group that is not
    required is valid; a required single-select group is valid exactly when
    one selection references it; a required multi-select group is valid
    exactly when at least one selection references it. *)
Theorem group_validity_three_cases groups sel g :
  NoDup (group_id <$> groups) → reachable groups sel → g ∈ groups →
  (is_required g = false → isGroupValid sel g = true)
  ∧ (is_required g = true → allow_multiple g = false →
       (isGroupValid sel g = true ↔ references sel g = 1%nat))
  ∧ (is_required g = true → allow_multiple g = true →
       (isGroupValid sel g = true ↔ (1 ≤ references sel g)%nat))
  ∧ isGroupValid sel g = spec_group_valid sel g.
Proof.
  intros Hnd Hreach Hg. split_and!.
  - intros Hfree. apply isGroupValid_references. by left.
  - intros Hreq Hsingle. rewrite isGroupValid_references.
    pose proof (reachable_single_select groups sel g Hnd Hreach Hg Hsingle) as Hone.
    split.
    + intros [Hno|Hsome]; [congruence|lia].
    + intros Hexactly. right. lia.
  - intros Hreq Hmulti. rewrite isGroupValid_references. split; [|by right].
    intros [Hno|?]; [congruence|done].
  - apply valid_matches_spec_when_single. intros Hsingle.
    by apply (reachable_single_select groups).
Qed.

Lemma group_validity_three_cases_witness :
  (isGroupValid (update [] (Radio Sample.bread "o-multigrain")) Sample.bread = true
   ↔ references (update [] (Radio Sample.bread "o-multigrain")) Sample.bread = 1%nat)
  ∧ isGroupValid (update [] (Radio Sample.bread "o-multigrain")) Sample.sauces = true
  ∧ isGroupValid (update [] (Radio Sample.bread "o-multigrain")) Sample.bread
    = spec_group_valid (update [] (Radio Sample.bread "o-multigrain")) Sample.bread.
Proof.
  assert (NoDup (group_id <$> [Sample.bread; Sample.sauces])) as Hnd
    by apply sample_catalog_wf.
  assert (reachable [Sample.bread; Sample.sauces]
            (update [] (Radio Sample.bread "o-multigrain"))) as Hreach.
  { apply reachable_update; [apply reachable_open|]. simpl. apply list_elem_of_here. }
  destruct (group_validity_three_cases [Sample.bread; Sample.sauces]
              (update [] (Radio Sample.bread "o-multigrain")) Sample.bread
              Hnd Hreach) as (_ & Hsingle & _ & Hspec);
    [apply list_elem_of_here|].
  destruct (group_validity_three_cases [Sample.bread; Sample.sauces]
              (update [] (Radio Sample.bread "o-multigrain")) Sample.sauces
              Hnd Hreach) as (Hfree & _);
    [apply list_elem_of_further, list_elem_of_here|].
  split_and!.
  - apply Hsingle; reflexivity.
  - apply Hfree. reflexivity.
  - exact Hspec.
Defined.
End Validity.

(** ** Selection updates *)

Section Updates.
Import Dialog.
Implicit Types (sel : list SelectedOption) (g : DishOptionGroup)
  (o : DishOption) (groups : list DishOptionGroup).

Lemma sample_reachable_two :
  reachable [Sample.bread; Sample.sauces]
    (update (update [] (Radio Sample.bread "o-brioche"))
       (Toggle Sample.sauces Sample.ketchup true)).
Proof.
  apply reachable_update; [apply reachable_update; [apply reachable_open|]|].
  - simpl. apply list_elem_of_here.
  - simpl. split.
    + apply list_elem_of_further, list_elem_of_here.
    + apply list_elem_of_here.
Qed.

(** C3: on a single-select group, choosing an option (by the toggle
    handler or by the radio handler) drops every selection of that group
    and then puts the new one at the end, which leaves exactly one selection
    for the group; and every selection set reached from the empty one by
    updates on the dish's groups (rows of a table keyed by [id]) holds at
    most one selection for each single-select group. *)
Theorem single_select_replaces groups sel g o optionId :
  allow_multiple g = false →
  handleOptionToggle sel g o true
    = filter (λ s, groupId s ≠ group_id g) sel ++ [selected g o]
  ∧ (find_option g optionId = Some o →
       handleRadioChange sel g optionId
       = filter (λ s, groupId s ≠ group_id g) sel ++ [selected g o])
  ∧ references (handleOptionToggle sel g o true) g = 1%nat
  ∧ (find_option g optionId = Some o →
       references (handleRadioChange sel g optionId) g = 1%nat)
  ∧ (NoDup (group_id <$> groups) → g ∈ groups → reachable groups sel →
       (references sel g ≤ 1)%nat).
Proof.
  intros Hsingle. unfold handleOptionToggle, handleRadioChange.
  rewrite Hsingle. split_and!.
  - reflexivity.
  - by intros ->.
  - apply references_replaced.
  - intros ->. apply references_replaced.
  - intros Hnd Hg Hreach. by apply (reachable_single_select groups).
Qed.

Lemma single_select_replaces_witness :
  handleRadioChange [selected Sample.bread Sample.brioche] Sample.bread "o-multigrain"
    = [selected Sample.bread Sample.multigrain]
  ∧ references
      (handleRadioChange [selected Sample.bread Sample.brioche]
         Sample.bread "o-multigrain") Sample.bread = 1%nat
  ∧ (references
       (update (update [] (Radio Sample.bread "o-brioche"))
          (Toggle Sample.sauces Sample.ketchup true)) Sample.bread ≤ 1)%nat.
Proof.
  assert (allow_multiple Sample.bread = false) as Hsingle by reflexivity.
  split_and!.
  - destruct (single_select_replaces [Sample.bread; Sample.sauces]
                [selected Sample.bread Sample.brioche] Sample.bread
                Sample.multigrain "o-multigrain" Hsingle) as (_ & H & _).
    apply H. reflexivity.
  - destruct (single_select_replaces [Sample.bread; Sample.sauces]
                [selected Sample.bread Sample.brioche] Sample.bread
                Sample.multigrain "o-multigrain" Hsingle) as (_ & _ & _ & H & _).
    apply H. reflexivity.
  - destruct (single_select_replaces [Sample.bread; Sample.sauces]
                (update (update [] (Radio Sample.bread "o-brioche"))
                   (Toggle Sample.sauces Sample.ketchup true)) Sample.bread
                Sample.multigrain "o-multigrain" Hsingle) as (_ & _ & _ & _ & H).
    apply H.
    + apply sample_catalog_wf.
    + apply list_elem_of_here.
    + apply sample_reachable_two.
Defined.

(** On a reachable selection set, the entries of an option belong to the
    option's group. *)
Lemma reachable_option_group groups sel g o s :
  catalog_wf groups → reachable groups sel → g ∈ groups → o ∈ options g →
  s ∈ sel → optionId s = option_id o → groupId s = group_id g.
Proof.
  intros [_ Hopt] Hreach Hg Ho Hs Hid.
  destruct (reachable_attributed groups sel Hreach s Hs) as (g' & o' & Hg' & Ho' & ->).
  simpl in *. by rewrite (option_id_one_group groups g' g o' o).
Qed.

(** Removing an option's entries does not touch the other groups when the
    option's entries all belong to one group. *)
Lemma toggle_off_frame sel g o :
  (∀ s, s ∈ sel → optionId s = option_id o → groupId s = group_id g) →
  filter (λ s, groupId s ≠ group_id g)
    (filter (λ s, optionId s ≠ option_id o) sel)
  = filter (λ s, groupId s ≠ group_id g) sel.
Proof.
  induction sel as [|s sel IH]; intros Hattr; [done|].
  assert (filter (λ s, groupId s ≠ group_id g)
            (filter (λ s, optionId s ≠ option_id o) sel)
          = filter (λ s, groupId s ≠ group_id g) sel) as Htail.
  { apply IH. intros s' Hs'. apply Hattr. by apply list_elem_of_further. }
  rewrite (filter_cons (λ s, optionId s ≠ option_id o)).
  destruct (decide (optionId s ≠ option_id o)) as [Hother|Hsame].
  - rewrite !filter_cons, Htail. done.
  - rewrite Htail, filter_cons_False; [done|].
    intros Hne. apply Hne, Hattr; [apply list_elem_of_here|].
    by destruct (decide (optionId s = option_id o)).
Qed.

(** C6: on a multi-select group of the dish, toggling an option on puts
    one selection for that option at the end of the list; toggling it off
    keeps exactly the entries of the other options, in their order; both
    leave the selections of the other groups as they were. *)
Theorem multi_select_toggle groups sel g o :
  catalog_wf groups → reachable groups sel →
  g ∈ groups → o ∈ options g → allow_multiple g = true →
  handleOptionToggle sel g o true = sel ++ [selected g o]
  ∧ optionId (selected g o) = option_id o
  ∧ groupId (selected g o) = group_id g
  ∧ handleOptionToggle sel g o false
    = filter (λ s, optionId s ≠ option_id o) sel
  ∧ (∀ s, s ∈ handleOptionToggle sel g o false
          ↔ s ∈ sel ∧ optionId s ≠ option_id o)
  ∧ (∀ checked,
       filter (λ s, groupId s ≠ group_id g) (handleOptionToggle sel g o checked)
       = filter (λ s, groupId s ≠ group_id g) sel).
Proof.
  intros Hwf Hreach Hg Ho Hmulti. unfold handleOptionToggle. rewrite Hmulti.
  split_and!; try reflexivity.
  - intros s. rewrite list_elem_of_filter. tauto.
  - intros [|].
    + rewrite filter_app, filter_cons_False, filter_nil, app_nil_r; [done|].
      simpl. by intros Hne.
    + apply toggle_off_frame. intros s.
      by apply (reachable_option_group groups sel).
Qed.

Lemma multi_select_toggle_witness :
  handleOptionToggle
    (update (update [] (Radio Sample.bread "o-brioche"))
       (Toggle Sample.sauces Sample.ketchup true))
    Sample.sauces Sample.mayonnaise true
  = [selected Sample.bread Sample.brioche; selected Sample.sauces Sample.ketchup;
     selected Sample.sauces Sample.mayonnaise]
  ∧ handleOptionToggle
      (update (update [] (Radio Sample.bread "o-brioche"))
         (Toggle Sample.sauces Sample.ketchup true))
      Sample.sauces Sample.ketchup false
    = [selected Sample.bread Sample.brioche].
Proof.
  split.
  - destruct (multi_select_toggle [Sample.bread; Sample.sauces]
                (update (update [] (Radio Sample.bread "o-brioche"))
                   (Toggle Sample.sauces Sample.ketchup true))
                Sample.sauces Sample.mayonnaise) as (Hon & _).
    + apply sample_catalog_wf.
    + apply sample_reachable_two.
    + apply list_elem_of_further, list_elem_of_here.
    + apply list_elem_of_further, list_elem_of_here.
    + reflexivity.
    + rewrite Hon. reflexivity.
  - destruct (multi_select_toggle [Sample.bread; Sample.sauces]
                (update (update [] (Radio Sample.bread "o-brioche"))
                   (Toggle Sample.sauces Sample.ketchup true))
                Sample.sauces Sample.ketchup) as (_ & _ & _ & Hoff & _).
    + apply sample_catalog_wf.
    + apply sample_reachable_two.
    + apply list_elem_of_further, list_elem_of_here.
    + apply list_elem_of_here.
    + reflexivity.
    + rewrite Hoff. reflexivity.
Defined.
End Updates.

(** ** Adding a line to the cart *)

Section AddToCart.
Import Dialog.

Lemma modifiers_fold (sel : list SelectedOption) (start : float) :
  fold_left (λ sum opt, (sum + priceModifier opt)%float) sel start
  = fold_left (λ sum x, (sum + x)%float) (priceModifier <$> sel) start.
Proof.
  revert start. induction sel as [|s sel IH]; intros start; [done|].
  cbn [fold_left]. rewrite fmap_cons. cbn [fold_left]. apply IH.
Qed.

Lemma addsExactly_values (x y : float) :
  Number.addsExactly x y = true →
  ∃ a b c,
    Number.exactValue x = Some a ∧ Number.exactValue y = Some b
    ∧ Number.exactValue (x + y)%float = Some c ∧ Qeq c (Qplus a b).
Proof.
  unfold Number.addsExactly.
  destruct (Number.exactValue x) as [a|]; [|done].
  destruct (Number.exactValue y) as [b|]; [|done].
  destruct (Number.exactValue (x + y)%float) as [c|]; [|done].
  intros Heq. apply Qeq_bool_iff in Heq. by exists a, b, c.
Qed.

(** Additions that do not round add the values up. *)
Lemma sumsExactly_values (values : list float) (start : float) (a : Q) :
  Number.sumsExactly start values = true →
  Number.exactValue start = Some a →
  ∃ t rest,
    Number.exactValue (fold_left (λ sum x, (sum + x)%float) values start) = Some t
    ∧ Number.exactSum values = Some rest
    ∧ Qeq t (Qplus a rest).
Proof.
  revert start a. induction values as [|x values IH]; intros start a Hexact Hstart.
  - exists a, (0 # 1). split_and!; [done..|]. lra.
  - cbn [Number.sumsExactly] in Hexact. apply andb_true_iff in Hexact as [Hadd Hrest].
    apply addsExactly_values in Hadd as (a' & b & c & Ha & Hb & Hc & Hsum).
    assert (a' = a) as -> by congruence.
    destruct (IH _ c Hrest Hc) as (t & rest & Ht & Hvalues & Htotal).
    exists t, (Qplus b rest). split_and!.
    + exact Ht.
    + cbn [Number.exactSum]. by rewrite Hb, Hvalues.
    + rewrite Htotal, Hsum. lra.
Qed.

(** A click on the add button while some group is invalid: nothing but a
    toast. *)
Lemma clickAdd_blocked (st : State) (w : Menu.State) :
  canAddToCart (optionGroups st) (selectedOptions st) = false →
  Menu.clickAdd (st, w)
  = (st, match Menu.selectedDish w with
         | None => w
         | Some _ =>
             Menu.log (Toast "Options manquantes"
                         "Veuillez sélectionner toutes les options obligatoires") w
         end).
Proof.
  intros Hblocked. unfold Menu.clickAdd, handleAddToCart. simpl.
  destruct (Menu.selectedDish w); [|done]. by rewrite Hblocked.
Qed.

(** A click on the add button while every group is valid. *)
Lemma clickAdd_accepted (st : State) (w : Menu.State) (d : Dish) :
  Menu.selectedDish w = Some d →
  canAddToCart (optionGroups st) (selectedOptions st) = true →
  Menu.cart (Menu.clickAdd (st, w)).2
  = (Menu.addToCart (Menu.cart w) d (Some (selectedOptions st)) (Some (comment st))).1.
Proof.
  intros Hdish Hok. unfold Menu.clickAdd, handleAddToCart. simpl.
  by rewrite Hdish, Hok.
Qed.

Lemma invalid_group_blocks (groups : list DishOptionGroup)
    (sel : list SelectedOption) :
  (∃ g, g ∈ groups ∧ isGroupValid sel g = false) →
  canAddToCart groups sel = false.
Proof.
  intros (g & Hg & Hinvalid). apply not_true_is_false. intros Hok.
  rewrite canAddToCart_every in Hok. specialize (Hok g Hg). congruence.
Qed.

(** The add button on the option groups the dialog holds in its state:
    [canAddToCart] holds exactly when [isGroupValid] holds of every one of
    them; a click on the button then puts the line in the cart, and when one
    of them is invalid the click leaves the dialog state and the cart as they
    were and adds nothing but toasts to the effects, so no request goes to
    the backend.  The groups held are those of the dish only once the
    backend's answer has arrived. *)
Theorem add_blocked_unless_groups_valid (st : State) (w : Menu.State) :
  (canAddToCart (optionGroups st) (selectedOptions st) = true
     ↔ ∀ g, g ∈ optionGroups st → isGroupValid (selectedOptions st) g = true)
  ∧ ((∃ g, g ∈ optionGroups st ∧ isGroupValid (selectedOptions st) g = false) →
       (Menu.clickAdd (st, w)).1 = st
       ∧ Menu.cart (Menu.clickAdd (st, w)).2 = Menu.cart w
       ∧ ∃ shown,
           Menu.effects (Menu.clickAdd (st, w)).2 = Menu.effects w ++ shown
           ∧ Forall (λ e, is_backend e = false) shown)
  ∧ (∀ d, Menu.selectedDish w = Some d →
       (∀ g, g ∈ optionGroups st → isGroupValid (selectedOptions st) g = true) →
       (Menu.clickAdd (st, w)).1 = st
       ∧ Menu.cart (Menu.clickAdd (st, w)).2
         = Menu.cart w
           ++ [ {| Menu.dish := d; Menu.quantity := 1;
                   Menu.selectedOptions := Some (selectedOptions st);
                   Menu.comment :=
                     if bool_decide (comment st = EmptyString) then None
                     else Some (comment st) |} ]).
Proof.
  split_and!.
  - apply canAddToCart_every.
  - intros Hinvalid. apply invalid_group_blocks in Hinvalid.
    rewrite (clickAdd_blocked st w Hinvalid). simpl.
    destruct (Menu.selectedDish w); simpl.
    + split_and!; [done..|]. eexists. split; [reflexivity|].
      by repeat constructor.
    + split_and!; [done..|]. exists []. by rewrite app_nil_r.
  - intros d Hdish Hvalid. apply canAddToCart_every in Hvalid. split.
    + unfold Menu.clickAdd, handleAddToCart. simpl. by rewrite Hdish, Hvalid.
    + by rewrite (clickAdd_accepted st w d).
Qed.

Lemma add_blocked_unless_groups_valid_witness :
  (Menu.clickAdd (Sample.dialog0, Sample.page0)).1 = Sample.dialog0
  ∧ Menu.cart (Menu.clickAdd (Sample.dialog0, Sample.page0)).2 = Sample.cart2
  ∧ ∃ shown,
      Menu.effects (Menu.clickAdd (Sample.dialog0, Sample.page0)).2
      = [BackendRequest "dishes"] ++ shown
      ∧ Forall (λ e, is_backend e = false) shown.
Proof.
  destruct (add_blocked_unless_groups_valid Sample.dialog0 Sample.page0)
    as (_ & Hblocked & _).
  apply Hblocked. exists Sample.bread. split.
  - apply list_elem_of_here.
  - reflexivity.
Defined.

(** C1: the add button is not held back while the dish's option groups
    are loading, or when loading them failed.  The burger has a required
    bread group, so its groups reject the empty selection; yet a click on the
    add button right after the dialog has opened on the burger, before the
    backend has answered, puts a burger without bread in the cart, and so
    does a click after a failed request.  Only once the groups have arrived
    is the click blocked. *)
Lemma add_before_groups_load :
  canAddToCart [Sample.bread; Sample.sauces] [] = false
  ∧ isLoading Sample.opened.1 = true
  ∧ optionGroups Sample.opened.1 = []
  ∧ canAddToCart (optionGroups Sample.opened.1) (selectedOptions Sample.opened.1) = true
  ∧ Menu.cart (Menu.clickAdd Sample.opened).2 = [Sample.line Sample.burger 1 None []]
  ∧ Menu.cart (Menu.clickAdd (Menu.answered GroupsFailed Sample.opened)).2
    = [Sample.line Sample.burger 1 None []]
  ∧ Menu.cart (Menu.clickAdd (Menu.answered (OptionsFailed 2) Sample.opened)).2
    = [Sample.line Sample.burger 1 None []]
  ∧ Menu.cart
      (Menu.clickAdd
         (Menu.answered (Loaded [Sample.bread; Sample.sauces]) Sample.opened)).2
    = [].
Proof. split_and!; reflexivity. Qed.

(** C5, as stated, fails: prices are binary64 numbers and their additions
    round.  For a dish at 7.90 with options at +0.10 and +0.20 the dialog's
    total is 8.200000000000001, which is neither the number 8.2 nor the sum
    of the three values the prices stand for. *)
Lemma getTotalPrice_rounds :
  getTotalPrice (Some Sample.wrap)
    [selected Sample.toppings Sample.cheese; selected Sample.sauces Sample.mayonnaise]
  = 8.200000000000001%float
  ∧ getTotalPrice (Some Sample.wrap)
      [selected Sample.toppings Sample.cheese; selected Sample.sauces Sample.mayonnaise]
    ≠ 8.2%float
  ∧ ∃ total base modifiers,
      Number.exactValue
        (getTotalPrice (Some Sample.wrap)
           [selected Sample.toppings Sample.cheese;
            selected Sample.sauces Sample.mayonnaise]) = Some total
      ∧ Number.exactValue (price Sample.wrap) = Some base
      ∧ Number.exactSum [price_modifier Sample.cheese; price_modifier Sample.mayonnaise]
        = Some modifiers
      ∧ ¬ Qeq total (Qplus base modifiers).
Proof.
  split_and!.
  - reflexivity.
  - intros Heq. apply (f_equal (λ x, Leibniz.eqb x 8.2%float)) in Heq.
    vm_compute in Heq. discriminate.
  - eexists _, _, _. split_and!; [vm_compute; reflexivity..|].
    intros Heq. apply Qeq_bool_iff in Heq. vm_compute in Heq. discriminate.
Qed.

(** C5 (amended): the price the dialog shows is the number obtained by
    adding the selected options' modifiers one after the other, from 0 and in
    the order of the selection, and adding the result to the dish's base
    price.  The line that [addToCart] puts in the cart for this dish and
    selection has that unit price, and after an update to a positive quantity
    its subtotal is the product, in numbers, of that unit price and the
    quantity.  Whenever none of the additions rounds, the price stands for
    the sum of the base price and the modifiers. *)
Theorem line_price (prev : list Menu.CartItem) (d : Dish)
    (sel : list SelectedOption) (c c' : option string) (q : Z) :
  0 < q →
  getTotalPrice (Some d) sel
  = (price d + fold_left (λ sum x, sum + x) (priceModifier <$> sel) 0)%float
  ∧ (∃ item,
       (Menu.addToCart prev d (Some sel) c).1 !! length prev = Some item
       ∧ Menu.quantity item = 1
       ∧ CartSheet.unitPrice item = getTotalPrice (Some d) sel
       ∧ ∃ item',
           Menu.updateCartItem (Menu.addToCart prev d (Some sel) c).1
             (Z.of_nat (length prev)) q c' !! length prev = Some item'
           ∧ Menu.quantity item' = q
           ∧ CartSheet.unitPrice item' = getTotalPrice (Some d) sel
           ∧ CartSheet.subtotal item'
             = (getTotalPrice (Some d) sel * Number.ofZ q)%float)
  ∧ (Number.sumsExactly 0 (priceModifier <$> sel) = true →
     Number.addsExactly (price d)
       (fold_left (λ sum x, sum + x)%float (priceModifier <$> sel) 0%float) = true →
     ∃ total base modifiers,
       Number.exactValue (getTotalPrice (Some d) sel) = Some total
       ∧ Number.exactValue (price d) = Some base
       ∧ Number.exactSum (priceModifier <$> sel) = Some modifiers
       ∧ Qeq total (Qplus base modifiers)).
Proof.
  intros Hq.
  assert (getTotalPrice (Some d) sel
          = (price d + fold_left (λ sum x, sum + x) (priceModifier <$> sel) 0)%float)
    as Htotal.
  { unfold getTotalPrice. by rewrite modifiers_fold. }
  split_and!.
  - exact Htotal.
  - eexists. split_and!.
    + unfold Menu.addToCart. cbn [fst]. apply list_lookup_middle. done.
    + reflexivity.
    + reflexivity.
    + eexists. split_and!.
      * rewrite updateCartItem_lookup by lia.
        unfold Menu.addToCart. cbn [fst].
        rewrite list_lookup_middle by done. cbn [fmap option_fmap option_map].
        rewrite bool_decide_eq_true_2 by done. reflexivity.
      * reflexivity.
      * reflexivity.
      * reflexivity.
  - intros Hmodifiers Hbase. rewrite Htotal.
    destruct (sumsExactly_values (priceModifier <$> sel) 0%float (0 # 1) Hmodifiers)
      as (t & modifiers & Ht & Hvalues & Hsum); [reflexivity|].
    apply addsExactly_values in Hbase as (base & t' & total & Hb & Ht' & Htot & Heq).
    assert (t' = t) as -> by congruence.
    exists total, base, modifiers. split_and!; [done..|].
    rewrite Heq, Hsum. lra.
Qed.

(** The scenario of the specification: burger at 8.00 with multigrain bread
    at +0.50, quantity 2, subtotal 17.00; no addition rounds here. *)
Lemma line_price_witness :
  getTotalPrice (Some Sample.burger) [selected Sample.bread Sample.multigrain]
  = 8.5%float
  ∧ (∃ item',
       Menu.updateCartItem
         (Menu.addToCart [] Sample.burger
            (Some [selected Sample.bread Sample.multigrain]) None).1
         0 2 None !! 0%nat = Some item'
       ∧ CartSheet.subtotal item' = 17%float)
  ∧ ∃ total base modifiers,
      Number.exactValue
        (getTotalPrice (Some Sample.burger) [selected Sample.bread Sample.multigrain])
      = Some total
      ∧ Number.exactValue (price Sample.burger) = Some base
      ∧ Number.exactSum (priceModifier <$> [selected Sample.bread Sample.multigrain])
        = Some modifiers
      ∧ Qeq total (Qplus base modifiers).
Proof.
  assert (0 < 2) as Hq by lia.
  destruct (line_price [] Sample.burger
              [selected Sample.bread Sample.multigrain] None None 2 Hq)
    as (Hprice & (item & _ & _ & _ & item' & Hitem' & _ & _ & Hsub) & Hexact).
  split_and!.
  - rewrite Hprice. reflexivity.
  - exists item'. split; [exact Hitem'|]. rewrite Hsub. reflexivity.
  - apply Hexact; reflexivity.
Defined.
End AddToCart.

(** ** The cart's add operation on the three pages *)

Section AddLine.
Import Dialog.

(** The line the options-less page makes of an existing one. *)
Lemma plain_addToCart_absent (prev : list MenuPlain.CartItem) (d : Dish) :
  (∀ item, item ∈ prev → dish_id (MenuPlain.dish item) ≠ dish_id d) →
  (MenuPlain.addToCart prev d).1
  = prev ++ [ {| MenuPlain.dish := d; MenuPlain.quantity := 1;
                 MenuPlain.comment := None |} ].
Proof.
  intros Habsent. unfold MenuPlain.addToCart. cbn [fst].
  destruct (find _ prev) as [existing|] eqn:Hfind; [|done].
  apply find_some in Hfind as [Hin Hid].
  apply bool_decide_eq_true in Hid.
  by destruct (Habsent existing); [apply list_elem_of_In|].
Qed.

Lemma plain_addToCart_present (prev : list MenuPlain.CartItem) (d : Dish) :
  (∃ item, item ∈ prev ∧ dish_id (MenuPlain.dish item) = dish_id d) →
  (MenuPlain.addToCart prev d).1
  = (λ item,
       if bool_decide (dish_id (MenuPlain.dish item) = dish_id d)
       then {| MenuPlain.dish := MenuPlain.dish item;
               MenuPlain.comment := MenuPlain.comment item;
               MenuPlain.quantity := MenuPlain.quantity item + 1 |}
       else item) <$> prev.
Proof.
  intros (item & Hin & Hid). unfold MenuPlain.addToCart. cbn [fst].
  destruct (find _ prev) as [existing|] eqn:Hfind; [done|].
  apply list_elem_of_In in Hin.
  pose proof (find_none _ _ Hfind item Hin) as Hno. simpl in Hno.
  apply bool_decide_eq_false in Hno. done.
Qed.



End AddLine.

(** ** The order lifecycle *)

Section Lifecycle.
Import Orders.
Implicit Types (db : gmap string Order) (order : Order) (s : OrderStatus).

(** A rendered button addresses the order it is rendered for and names the
    status that follows the order's. *)
Lemma statusButtons_next order orderId newStatus :
  (orderId, newStatus) ∈ statusButtons order →
  orderId = id order ∧ next (status order) = Some newStatus.
Proof.
  unfold statusButtons. destruct (status order); simpl;
    intros Hin;
    first [ by apply elem_of_nil in Hin
          | apply list_elem_of_singleton in Hin; by inversion Hin ].
Qed.







End Lifecycle.

(** ** More on the dialog: what its controls show *)

Section Controls.
Import Dialog.
Implicit Types (sel : list SelectedOption) (g : DishOptionGroup)
  (o : DishOption) (groups : list DishOptionGroup).

Lemma isSelected_elem sel o :
  isSelected sel o = true ↔ option_id o ∈ optionId <$> sel.
Proof.
  unfold isSelected. rewrite existsb_exists, list_elem_of_fmap. split.
  - intros (s & Hin & Hid). apply bool_decide_eq_true in Hid.
    exists s. split; [done|]. by apply list_elem_of_In.
  - intros (s & Hid & Hin). exists s. split; [by apply list_elem_of_In|].
    by apply bool_decide_eq_true.
Qed.

Lemma isSelected_not_elem sel o :
  isSelected sel o = false ↔ option_id o ∉ optionId <$> sel.
Proof. rewrite <- isSelected_elem. by destruct (isSelected sel o). Qed.

Lemma isSelected_added sel g o : isSelected (sel ++ [selected g o]) o = true.
Proof.
  apply isSelected_elem. rewrite fmap_app. apply elem_of_app. right.
  apply list_elem_of_here.
Qed.

Lemma isSelected_removed sel o :
  isSelected (filter (λ s, optionId s ≠ option_id o) sel) o = false.
Proof.
  apply isSelected_not_elem. intros Hin.
  apply list_elem_of_fmap in Hin as (s & Hid & Hs).
  apply list_elem_of_filter in Hs as [Hne _]. by apply Hne.
Qed.

(** X1: after [handleOptionToggle(group, option, checked)] the option's
    checkbox shows [checked], on single- and multi-select groups alike; so a
    click on an option button of the kids dialog flips the option. *)
Theorem toggle_sets_checkbox sel g o (checked : bool) :
  isSelected (handleOptionToggle sel g o checked) o = checked
  ∧ isSelected (kidsClick sel g o) o = negb (isSelected sel o).
Proof.
  assert (∀ c, isSelected (handleOptionToggle sel g o c) o = c) as Hset.
  { intros c. unfold handleOptionToggle.
    destruct c; [destruct (allow_multiple g)|].
    - apply isSelected_added.
    - apply isSelected_added.
    - apply isSelected_removed. }
  split; [apply Hset|]. unfold kidsClick. apply Hset.
Qed.

Lemma filter_ids_NoDup (P : SelectedOption → Prop) `{!∀ s, Decision (P s)} sel :
  NoDup (optionId <$> sel) → NoDup (optionId <$> filter P sel).
Proof.
  induction sel as [|s sel IH]; [done|].
  rewrite fmap_cons, NoDup_cons. intros [Hs Hnd].
  rewrite filter_cons. destruct (decide (P s)); [|by apply IH].
  rewrite fmap_cons, NoDup_cons. split; [|by apply IH].
  intros Hin. apply Hs.
  apply list_elem_of_fmap in Hin as (s' & Hid & Hs').
  apply list_elem_of_filter in Hs' as [_ Hs'].
  rewrite Hid. by apply list_elem_of_fmap_2.
Qed.

Lemma filter_ids_not_elem (P : SelectedOption → Prop) `{!∀ s, Decision (P s)}
    sel (x : string) :
  x ∉ optionId <$> sel → x ∉ optionId <$> filter P sel.
Proof.
  intros Hx Hin. apply Hx.
  apply list_elem_of_fmap in Hin as (s & Hid & Hs).
  apply list_elem_of_filter in Hs as [_ Hs].
  rewrite Hid. by apply list_elem_of_fmap_2.
Qed.

(** X2: in the kids dialog no option is ever selected twice: every
    selection set reached by clicks on option buttons lists each option id
    once at most. *)
Theorem kids_selection_NoDup sel :
  kidsReachable sel → NoDup (optionId <$> sel).
Proof.
  induction 1 as [|sel g o Hreach IH]; [constructor|].
  unfold kidsClick, handleOptionToggle.
  destruct (isSelected sel o) eqn:Hsel; cbn [negb].
  - by apply filter_ids_NoDup.
  - apply isSelected_not_elem in Hsel.
    destruct (allow_multiple g); rewrite fmap_app; apply NoDup_app.
    + split_and!; [done| |apply NoDup_singleton].
      intros x Hx Hx'. apply list_elem_of_singleton in Hx'. by subst.
    + split_and!; [by apply filter_ids_NoDup| |apply NoDup_singleton].
      intros x Hx Hx'. apply list_elem_of_singleton in Hx'. subst.
      by apply (filter_ids_not_elem (λ s, groupId s ≠ group_id g) sel (option_id o)).
Qed.

Lemma kids_selection_NoDup_witness :
  NoDup (optionId <$>
           kidsClick (kidsClick (kidsClick [] Sample.sauces Sample.ketchup)
                        Sample.sauces Sample.mayonnaise)
             Sample.sauces Sample.ketchup).
Proof.
  apply kids_selection_NoDup.
  do 3 apply kidsReachable_click. apply kidsReachable_open.
Defined.

Lemma find_group_none sel g :
  List.find (λ opt, bool_decide (groupId opt = group_id g))
    (filter (λ s, groupId s ≠ group_id g) sel) = None.
Proof.
  induction sel as [|s sel IH]; [done|].
  rewrite filter_cons. destruct (decide (groupId s ≠ group_id g)) as [Hne|]; [|done].
  cbn [find]. by rewrite bool_decide_eq_false_2.
Qed.

Lemma find_app_none {A} (p : A → bool) (l1 l2 : list A) :
  List.find p l1 = None → List.find p (l1 ++ l2) = List.find p l2.
Proof.
  induction l1 as [|x l1 IH]; [done|]. cbn [find app].
  destruct (p x); [done|]. apply IH.
Qed.

Lemma find_app_last {A} (p : A → bool) (l : list A) (y : A) :
  p y = false → List.find p (l ++ [y]) = List.find p l.
Proof.
  intros Hy. induction l as [|x l IH]; cbn [find app].
  - by rewrite Hy.
  - by destruct (p x).
Qed.

Lemma find_other_group sel g g' :
  group_id g' ≠ group_id g →
  List.find (λ opt, bool_decide (groupId opt = group_id g'))
    (filter (λ s, groupId s ≠ group_id g) sel)
  = List.find (λ opt, bool_decide (groupId opt = group_id g')) sel.
Proof.
  intros Hne. induction sel as [|s sel IH]; [done|].
  rewrite filter_cons. cbn [find].
  destruct (decide (groupId s ≠ group_id g)) as [Hs|Hs].
  - cbn [find]. by rewrite IH.
  - rewrite IH. rewrite bool_decide_eq_false_2; [done|].
    intros Heq. apply Hs. congruence.
Qed.

(** X3: after [handleRadioChange(group, optionId)] with an option id of the
    group, the group's radio buttons show that option and the radio buttons
    of every other group show what they showed; with an id that is not among
    the group's options nothing is selected or removed. *)
Theorem radio_shows_choice sel g (chosen : string) :
  (is_Some (find_option g chosen) →
     radioValue (handleRadioChange sel g chosen) g = chosen
     ∧ ∀ g', group_id g' ≠ group_id g →
         radioValue (handleRadioChange sel g chosen) g' = radioValue sel g')
  ∧ (find_option g chosen = None → handleRadioChange sel g chosen = sel).
Proof.
  unfold handleRadioChange. split.
  - intros [o Hfind]. rewrite Hfind.
    apply find_option_elem in Hfind as [_ Hid]. split.
    + unfold radioValue. rewrite find_app_none by apply find_group_none.
      cbn [find selected groupId]. rewrite bool_decide_eq_true_2 by done.
      cbn [optionId selected]. rewrite Hid. by case_bool_decide.
    + intros g' Hne. unfold radioValue.
      rewrite find_app_last, find_other_group; [done..|].
      cbn [selected groupId]. by apply bool_decide_eq_false_2.
  - by intros ->.
Qed.

Lemma radio_shows_choice_witness :
  radioValue
    (handleRadioChange [selected Sample.bread Sample.brioche;
                        selected Sample.sauces Sample.ketchup]
       Sample.bread "o-multigrain") Sample.bread = "o-multigrain"
  ∧ handleRadioChange [selected Sample.bread Sample.brioche] Sample.bread "o-rye"
    = [selected Sample.bread Sample.brioche].
Proof.
  split.
  - destruct (radio_shows_choice
                [selected Sample.bread Sample.brioche;
                 selected Sample.sauces Sample.ketchup]
                Sample.bread "o-multigrain") as [Hknown _].
    apply Hknown. by eexists.
  - destruct (radio_shows_choice [selected Sample.bread Sample.brioche]
                Sample.bread "o-rye") as [_ Hunknown].
    apply Hunknown. reflexivity.
Defined.

Lemma filter_all_kept {A} (P : A → Prop) `{!∀ x, Decision (P x)} (l : list A) :
  (∀ x, x ∈ l → P x) → filter P l = l.
Proof.
  induction l as [|x l IH]; intros Hall; [done|].
  rewrite filter_cons_True by apply Hall, list_elem_of_here.
  f_equal. apply IH. intros y Hy. by apply Hall, list_elem_of_further.
Qed.

(** X4: on a multi-select group, checking an option that was not selected
    and unchecking it again gives back the selection set as it was. *)
Theorem toggle_on_off sel g o :
  allow_multiple g = true →
  isSelected sel o = false →
  handleOptionToggle (handleOptionToggle sel g o true) g o false = sel.
Proof.
  intros Hmulti Hnot. unfold handleOptionToggle. rewrite Hmulti.
  apply isSelected_not_elem in Hnot.
  rewrite filter_app, filter_cons_False, filter_nil, app_nil_r.
  - apply filter_all_kept. intros s Hs Hid. apply Hnot.
    rewrite <- Hid. by apply list_elem_of_fmap_2.
  - intros Hne. by apply Hne.
Qed.

Lemma toggle_on_off_witness :
  handleOptionToggle
    (handleOptionToggle [selected Sample.bread Sample.brioche]
       Sample.sauces Sample.ketchup true)
    Sample.sauces Sample.ketchup false
  = [selected Sample.bread Sample.brioche].
Proof. apply toggle_on_off; reflexivity. Defined.

Lemma references_le_mono sel sel' g :
  (references sel g ≤ references sel' g)%nat →
  isGroupValid sel g = true → isGroupValid sel' g = true.
Proof.
  rewrite !isGroupValid_references. intros Hle [Hno|Hsome]; [by left|].
  right. lia.
Qed.

(** X5: choosing never invalidates.  After [handleRadioChange] with an
    option of the group, or after [handleOptionToggle] with [checked] true,
    the group chosen in is valid, and the validity of every group with
    another id is what it was. *)
Theorem choosing_keeps_valid sel g g' o (chosen : string) :
  isGroupValid (handleOptionToggle sel g o true) g = true
  ∧ (is_Some (find_option g chosen) →
       isGroupValid (handleRadioChange sel g chosen) g = true)
  ∧ (group_id g' ≠ group_id g →
       isGroupValid (handleOptionToggle sel g o true) g' = isGroupValid sel g'
       ∧ isGroupValid (handleRadioChange sel g chosen) g' = isGroupValid sel g').
Proof.
  assert (∀ o', isGroupValid
                  (filter (λ s, groupId s ≠ group_id g) sel ++ [selected g o']) g
                = true) as Hreplaced.
  { intros o'. apply isGroupValid_references. right.
    by rewrite references_replaced. }
  assert (∀ o', isGroupValid (sel ++ [selected g o']) g = true) as Hadded.
  { intros o'. apply isGroupValid_references. right.
    rewrite references_app, references_selected, decide_True by done. lia. }
  assert (∀ l, group_id g' ≠ group_id g →
            existsb (λ opt, bool_decide (groupId opt = group_id g'))
              (filter (λ s, groupId s ≠ group_id g) l)
            = existsb (λ opt, bool_decide (groupId opt = group_id g')) l)
    as Hframe.
  { intros l Hne. induction l as [|s l IH]; [done|].
    rewrite filter_cons. cbn [existsb].
    destruct (decide (groupId s ≠ group_id g)) as [Hs|Hs].
    - cbn [existsb]. by rewrite IH.
    - rewrite IH. rewrite bool_decide_eq_false_2; [done|].
      intros Heq. apply Hs. congruence. }
  assert (∀ l o', group_id g' ≠ group_id g →
            isGroupValid (l ++ [selected g o']) g' = isGroupValid l g') as Hlast.
  { intros l o' Hne. unfold isGroupValid. destruct (is_required g'); [|done].
    cbn [negb]. rewrite existsb_app. cbn [existsb selected groupId].
    rewrite (bool_decide_eq_false_2 (group_id g = group_id g')) by done.
    by rewrite !orb_false_r. }
  assert (∀ l, group_id g' ≠ group_id g →
            isGroupValid (filter (λ s, groupId s ≠ group_id g) l) g'
            = isGroupValid l g') as Hdrop.
  { intros l Hne. unfold isGroupValid. destruct (is_required g'); [|done].
    cbn [negb]. by apply Hframe. }
  split_and!.
  - unfold handleOptionToggle. by destruct (allow_multiple g).
  - intros [o' Hfind]. unfold handleRadioChange. by rewrite Hfind.
  - intros Hne. split.
    + unfold handleOptionToggle. destruct (allow_multiple g).
      * by apply Hlast.
      * rewrite Hlast by done. by apply Hdrop.
    + unfold handleRadioChange. destruct (find_option g chosen); [|done].
      rewrite Hlast by done. by apply Hdrop.
Qed.

Lemma choosing_keeps_valid_witness :
  isGroupValid (handleRadioChange [] Sample.bread "o-brioche") Sample.bread = true
  ∧ isGroupValid (handleRadioChange [] Sample.bread "o-brioche") Sample.sauces
    = isGroupValid [] Sample.sauces.
Proof.
  destruct (choosing_keeps_valid [] Sample.bread Sample.sauces Sample.brioche
              "o-brioche") as (_ & Hradio & Hother).
  split.
  - apply Hradio. by eexists.
  - apply Hother. discriminate.
Defined.

(** X6: with nothing selected, as when the dialog has just opened, the
    dish can be added exactly when none of its groups is required; a dish
    without option groups can always be added. *)
Theorem addable_when_nothing_selected groups :
  (canAddToCart groups [] = true ↔ ∀ g, g ∈ groups → is_required g = false)
  ∧ ∀ sel, canAddToCart [] sel = true.
Proof.
  split; [|done]. rewrite canAddToCart_every.
  split; intros Hall g Hg; specialize (Hall g Hg).
  - apply isGroupValid_references in Hall as [Hno|Hsome]; [done|].
    rewrite references_nil in Hsome. lia.
  - apply isGroupValid_references. by left.
Qed.

Lemma addable_when_nothing_selected_witness :
  canAddToCart [Sample.sauces] [] = true.
Proof.
  destruct (addable_when_nothing_selected [Sample.sauces]) as [[_ Hfree] _].
  apply Hfree. intros g Hg. apply list_elem_of_singleton in Hg. by subst.
Defined.

(** X8: a click on the dialog's add button never sends a request to the
    backend, whether the line is added or not: it adds only toasts to the
    effects; and it closes the dialog exactly when it adds the line. *)
Theorem clickAdd_local (st : State) (w : Menu.State) :
  (∃ shown,
     Menu.effects (Menu.clickAdd (st, w)).2 = Menu.effects w ++ shown
     ∧ Forall (λ e, is_backend e = false) shown)
  ∧ Menu.isCustomizationOpen (Menu.clickAdd (st, w)).2
    = match Menu.selectedDish w with
      | Some _ =>
          if canAddToCart (optionGroups st) (selectedOptions st) then false
          else Menu.isCustomizationOpen w
      | None => Menu.isCustomizationOpen w
      end
  ∧ Menu.selectedDish (Menu.clickAdd (st, w)).2 = Menu.selectedDish w
  ∧ Menu.isCartOpen (Menu.clickAdd (st, w)).2 = Menu.isCartOpen w.
Proof.
  unfold Menu.clickAdd, handleAddToCart. simpl.
  destruct (Menu.selectedDish w) as [d|] eqn:Hdish.
  - destruct (canAddToCart (optionGroups st) (selectedOptions st)); simpl.
    + split_and!; try done. eexists. split; [reflexivity|]. by repeat constructor.
    + split_and!; try done. eexists. split; [reflexivity|]. by repeat constructor.
  - split_and!; try done. exists []. by rewrite app_nil_r.
Qed.
End Controls.

(** ** More on the carts: item counts and the cart keyed by dish *)

Section Counts.
Implicit Types (prev : list Menu.CartItem) (plain : list MenuPlain.CartItem).

Lemma sumZ_app (l1 l2 : list Z) :
  CartSheet.sumZ (l1 ++ l2) = CartSheet.sumZ l1 + CartSheet.sumZ l2.
Proof.
  unfold CartSheet.sumZ. induction l1 as [|x l1 IH]; cbn [foldr app]; lia.
Qed.

Lemma fold_sum {A} (f : A → Z) (l : list A) (start : Z) :
  fold_left (λ sum x, sum + f x) l start = start + CartSheet.sumZ (f <$> l).
Proof.
  revert start. induction l as [|x l IH]; intros start.
  - unfold CartSheet.sumZ. simpl. lia.
  - cbn [fold_left]. rewrite IH, fmap_cons.
    unfold CartSheet.sumZ. cbn [foldr]. lia.
Qed.

Lemma getTotalItems_sum prev :
  Menu.getTotalItems prev = CartSheet.sumZ (Menu.quantity <$> prev).
Proof. unfold Menu.getTotalItems. rewrite fold_sum. lia. Qed.

Lemma getTotalItems_app prev1 prev2 :
  Menu.getTotalItems (prev1 ++ prev2)
  = Menu.getTotalItems prev1 + Menu.getTotalItems prev2.
Proof. by rewrite !getTotalItems_sum, fmap_app, sumZ_app. Qed.

(** An update with a quantity other than [0] writes one position. *)
Lemma updateCartItem_insert prev (n : nat) quantity comment item :
  quantity ≠ 0 → prev !! n = Some item →
  Menu.updateCartItem prev (Z.of_nat n) quantity comment
  = <[n := {| Menu.dish := Menu.dish item;
              Menu.selectedOptions := Menu.selectedOptions item;
              Menu.quantity := quantity; Menu.comment := comment |}]> prev.
Proof.
  intros Hq Hitem. apply list_eq. intros j.
  rewrite updateCartItem_lookup by done.
  destruct (decide (n = j)) as [<-|Hne].
  - rewrite Hitem, list_lookup_insert_eq by by eapply lookup_lt_Some.
    simpl. by rewrite bool_decide_eq_true_2.
  - rewrite list_lookup_insert_ne by done.
    destruct (prev !! j); [|done]. simpl.
    rewrite bool_decide_eq_false_2; [done|lia].
Qed.

(** X9: the badge count [getTotalItems].  Adding a line raises it by 1;
    an update of an existing line to a quantity other than 0 replaces that
    line's quantity in the count; removing an existing line takes its
    quantity out of the count. *)
Theorem getTotalItems_after prev (d : Dish) sel c (n : nat) quantity comment item :
  Menu.getTotalItems (Menu.addToCart prev d sel c).1 = Menu.getTotalItems prev + 1
  ∧ (prev !! n = Some item →
       (quantity ≠ 0 →
          Menu.getTotalItems (Menu.updateCartItem prev (Z.of_nat n) quantity comment)
          = Menu.getTotalItems prev - Menu.quantity item + quantity)
       ∧ Menu.getTotalItems (Menu.removeFromCart prev (Z.of_nat n))
         = Menu.getTotalItems prev - Menu.quantity item
       ∧ Menu.getTotalItems (Menu.updateCartItem prev (Z.of_nat n) 0 comment)
         = Menu.getTotalItems prev - Menu.quantity item).
Proof.
  split.
  - unfold Menu.addToCart. cbn [fst]. rewrite getTotalItems_app.
    unfold Menu.getTotalItems at 2. simpl. lia.
  - intros Hitem.
    assert (Menu.getTotalItems prev
            = Menu.getTotalItems (take n prev) + Menu.quantity item
              + Menu.getTotalItems (drop (S n) prev)) as Hsplit.
    { rewrite <- (take_drop_middle prev n item Hitem) at 1.
      rewrite getTotalItems_app.
      change (item :: drop (S n) prev) with ([item] ++ drop (S n) prev).
      rewrite getTotalItems_app. unfold Menu.getTotalItems at 2. simpl. lia. }
    assert (Menu.getTotalItems (Menu.removeFromCart prev (Z.of_nat n))
            = Menu.getTotalItems prev - Menu.quantity item) as Hremove.
    { rewrite removeFromCart_delete, decide_True by lia.
      rewrite Nat2Z.id, delete_take_drop, getTotalItems_app. lia. }
    split_and!.
    + intros Hq. rewrite (updateCartItem_insert prev n quantity comment item) by done.
      rewrite insert_take_drop by by eapply lookup_lt_Some.
      rewrite getTotalItems_app.
      match goal with
      | |- context [?x :: drop (S n) prev] =>
          change (x :: drop (S n) prev) with ([x] ++ drop (S n) prev)
      end.
      rewrite getTotalItems_app. unfold Menu.getTotalItems at 2. simpl. lia.
    + exact Hremove.
    + rewrite updateCartItem_zero. exact Hremove.
Qed.

Lemma getTotalItems_after_witness :
  Menu.getTotalItems Sample.cart2 = 3
  ∧ Menu.getTotalItems (Menu.updateCartItem Sample.cart2 1 5 None) = 6
  ∧ Menu.getTotalItems (Menu.removeFromCart Sample.cart2 1) = 1.
Proof.
  destruct (getTotalItems_after Sample.cart2 Sample.burger None None 1 5 None
              (Sample.line Sample.fries 2 None [])) as [_ Hline].
  destruct (Hline eq_refl) as (Hupdate & Hremove & _).
  split_and!.
  - reflexivity.
  - change 1 with (Z.of_nat 1). rewrite Hupdate; [reflexivity|lia].
  - change 1 with (Z.of_nat 1). rewrite Hremove. reflexivity.
Defined.
End Counts.

Section PlainCart.
Import MenuPlain.
Implicit Types (plain : list CartItem) (d : Dish) (dishId : string).

Lemma plain_getTotalItems_sum plain :
  getTotalItems plain = CartSheet.sumZ (quantity <$> plain).
Proof. unfold getTotalItems. rewrite fold_sum. lia. Qed.

Lemma plain_filter_ids (P : CartItem → Prop) `{!∀ x, Decision (P x)} plain :
  NoDup ((λ item, dish_id (dish item)) <$> plain) →
  NoDup ((λ item, dish_id (dish item)) <$> filter P plain).
Proof.
  induction plain as [|x plain IH]; [done|].
  rewrite fmap_cons, NoDup_cons. intros [Hx Hnd].
  rewrite filter_cons. destruct (decide (P x)); [|by apply IH].
  rewrite fmap_cons, NoDup_cons. split; [|by apply IH].
  intros Hin. apply Hx.
  apply list_elem_of_fmap in Hin as (y & Hid & Hy).
  apply list_elem_of_filter in Hy as [_ Hy].
  rewrite Hid. by apply (list_elem_of_fmap_2 (λ item, dish_id (dish item))).
Qed.

Lemma plain_rewrite_ids (f : CartItem → CartItem) plain :
  (∀ item, dish_id (dish (f item)) = dish_id (dish item)) →
  (λ item, dish_id (dish item)) <$> (f <$> plain)
  = (λ item, dish_id (dish item)) <$> plain.
Proof.
  intros Hf. rewrite <- list_fmap_compose. apply list_fmap_ext.
  intros i item _. apply Hf.
Qed.

Lemma plain_bump_absent plain d :
  dish_id d ∉ (λ item, dish_id (dish item)) <$> plain →
  quantity <$> ((λ item,
                   if bool_decide (dish_id (dish item) = dish_id d)
                   then {| dish := dish item; comment := comment item;
                           quantity := quantity item + 1 |}
                   else item) <$> plain)
  = quantity <$> plain.
Proof.
  intros Habsent. rewrite <- list_fmap_compose. apply list_fmap_ext.
  intros i item Hitem. simpl. rewrite bool_decide_eq_false_2; [done|].
  intros Heq. apply Habsent. rewrite <- Heq.
  apply (list_elem_of_fmap_2 (λ item, dish_id (dish item))).
  by eapply list_elem_of_lookup_2.
Qed.

Lemma plain_bump_once plain d :
  NoDup ((λ item, dish_id (dish item)) <$> plain) →
  dish_id d ∈ (λ item, dish_id (dish item)) <$> plain →
  CartSheet.sumZ
    (quantity <$> ((λ item,
                      if bool_decide (dish_id (dish item) = dish_id d)
                      then {| dish := dish item; comment := comment item;
                              quantity := quantity item + 1 |}
                      else item) <$> plain))
  = CartSheet.sumZ (quantity <$> plain) + 1.
Proof.
  induction plain as [|x plain IH]; intros Hnd Hin.
  - by apply elem_of_nil in Hin.
  - rewrite fmap_cons, NoDup_cons in Hnd. destruct Hnd as [Hx Hnd].
    rewrite !fmap_cons. unfold CartSheet.sumZ. cbn [foldr].
    fold (CartSheet.sumZ (quantity <$> plain)).
    match goal with
    | |- context [foldr Z.add 0 ?l] => fold (CartSheet.sumZ l)
    end.
    destruct (decide (dish_id (dish x) = dish_id d)) as [Heq|Hne].
    + rewrite bool_decide_eq_true_2 by done. cbn [quantity].
      rewrite plain_bump_absent; [lia|]. by rewrite <- Heq.
    + rewrite bool_decide_eq_false_2 by done.
      rewrite fmap_cons in Hin. apply elem_of_cons in Hin as [Heq|Hin]; [done|].
      rewrite IH by done. lia.
Qed.

(** X10: the cart of the options-less page holds one line per dish at
    most.  If no two lines share a dish id, the same holds after
    [addToCart], [updateCartItem] and [removeFromCart]; and on such a cart
    [addToCart] raises the item count by exactly 1, whether it appends a line
    or raises the quantity of the dish's line. *)
Theorem plain_cart_one_line_per_dish plain d dishId (q : Z) (c : option string) :
  NoDup ((λ item, dish_id (dish item)) <$> plain) →
  NoDup ((λ item, dish_id (dish item)) <$> (addToCart plain d).1)
  ∧ NoDup ((λ item, dish_id (dish item)) <$> updateCartItem plain dishId q c)
  ∧ NoDup ((λ item, dish_id (dish item)) <$> removeFromCart plain dishId)
  ∧ getTotalItems (addToCart plain d).1 = getTotalItems plain + 1.
Proof.
  intros Hnd.
  destruct (decide (dish_id d ∈ (λ item, dish_id (dish item)) <$> plain))
    as [Hin|Hout].
  - assert (∃ item, item ∈ plain ∧ dish_id (dish item) = dish_id d) as Hpresent.
    { apply list_elem_of_fmap in Hin as (item & Hid & Hitem). eauto. }
    split_and!.
    + rewrite plain_addToCart_present by done.
      rewrite plain_rewrite_ids; [done|]. intros item. by case_bool_decide.
    + unfold updateCartItem. case_bool_decide.
      * by apply plain_filter_ids.
      * rewrite plain_rewrite_ids; [done|]. intros item. by case_bool_decide.
    + by apply plain_filter_ids.
    + rewrite plain_addToCart_present by done.
      rewrite !plain_getTotalItems_sum. by apply plain_bump_once.
  - assert (∀ item, item ∈ plain → dish_id (dish item) ≠ dish_id d) as Habsent.
    { intros item Hitem Heq. apply Hout. rewrite <- Heq.
      by apply (list_elem_of_fmap_2 (λ item, dish_id (dish item))). }
    split_and!.
    + rewrite plain_addToCart_absent by done.
      rewrite fmap_app. apply NoDup_app. split_and!; [done| |apply NoDup_singleton].
      intros x Hx Hx'. apply list_elem_of_singleton in Hx'. simpl in Hx'. by subst.
    + unfold updateCartItem. case_bool_decide.
      * by apply plain_filter_ids.
      * rewrite plain_rewrite_ids; [done|]. intros item. by case_bool_decide.
    + by apply plain_filter_ids.
    + rewrite plain_addToCart_absent by done.
      rewrite !plain_getTotalItems_sum, fmap_app, sumZ_app.
      unfold CartSheet.sumZ at 2. simpl. lia.
Qed.

Lemma plain_cart_one_line_per_dish_witness :
  NoDup ((λ item, dish_id (dish item))
           <$> (addToCart (addToCart (addToCart [] Sample.burger).1 Sample.fries).1
                  Sample.burger).1)
  ∧ getTotalItems
      (addToCart (addToCart (addToCart [] Sample.burger).1 Sample.fries).1
         Sample.burger).1 = 3.
Proof.
  assert (NoDup ((λ item, dish_id (dish item))
                   <$> (addToCart (addToCart [] Sample.burger).1 Sample.fries).1))
    as Hnd.
  { apply (bool_decide_unpack _). vm_compute. exact I. }
  destruct (plain_cart_one_line_per_dish
              (addToCart (addToCart [] Sample.burger).1 Sample.fries).1
              Sample.burger "d-fries" 0 None Hnd) as (Hadd & _ & _ & Htotal).
  split; [exact Hadd|]. rewrite Htotal. reflexivity.
Defined.

(** X11: on the options-less page, removing a dish removes every line of
    that dish and nothing else; an update with quantity 0 is that removal;
    removing twice is removing once; removals of two dishes can be done in
    either order; and removing a dish the cart does not hold changes
    nothing. *)
Theorem plain_remove_by_dish plain dishId (other : string) (c : option string) :
  (∀ item, item ∈ removeFromCart plain dishId
           ↔ item ∈ plain ∧ dish_id (dish item) ≠ dishId)
  ∧ updateCartItem plain dishId 0 c = removeFromCart plain dishId
  ∧ removeFromCart (removeFromCart plain dishId) dishId = removeFromCart plain dishId
  ∧ removeFromCart (removeFromCart plain dishId) other
    = removeFromCart (removeFromCart plain other) dishId
  ∧ (dishId ∉ (λ item, dish_id (dish item)) <$> plain →
       removeFromCart plain dishId = plain).
Proof.
  split_and!.
  - intros item. unfold removeFromCart. rewrite list_elem_of_filter. tauto.
  - reflexivity.
  - apply plain_removeFromCart_twice.
  - unfold removeFromCart. rewrite !list_filter_filter.
    apply list_filter_iff. intros item. tauto.
  - intros Habsent. apply filter_all_kept. intros item Hitem Heq.
    apply Habsent. rewrite <- Heq.
    by apply (list_elem_of_fmap_2 (λ item, dish_id (dish item))).
Qed.

Lemma plain_remove_by_dish_witness :
  removeFromCart [Sample.plain_line Sample.burger 2] "d-fries"
  = [Sample.plain_line Sample.burger 2].
Proof.
  destruct (plain_remove_by_dish [Sample.plain_line Sample.burger 2]
              "d-fries" "d-burger" None) as (_ & _ & _ & _ & Habsent).
  apply Habsent. simpl. intros Hin.
  apply list_elem_of_singleton in Hin. discriminate.
Defined.
End PlainCart.

(** ** What the pages display *)

Section Display.
Implicit Types (dishes : list Dish) (values seen : list string).

Lemma uniq_from seen values :
  NoDup seen →
  NoDup (foldl (λ seen x, if bool_decide (x ∈ seen) then seen else seen ++ [x])
           seen values)
  ∧ ∀ x, x ∈ foldl (λ seen x, if bool_decide (x ∈ seen) then seen else seen ++ [x])
               seen values
         ↔ x ∈ seen ∨ x ∈ values.
Proof.
  revert seen. induction values as [|v values IH]; intros seen Hnd.
  - split; [done|]. intros x. rewrite elem_of_nil. tauto.
  - cbn [foldl]. case_bool_decide as Hv.
    + destruct (IH seen Hnd) as [Hnd' Hin]. split; [done|].
      intros x. rewrite Hin, elem_of_cons. split; [tauto|].
      intros [?|[->|?]]; tauto.
    + assert (NoDup (seen ++ [v])) as Hnd1.
      { apply NoDup_app. split_and!; [done| |apply NoDup_singleton].
        intros x Hx Hx'. apply list_elem_of_singleton in Hx'. by subst. }
      destruct (IH (seen ++ [v]) Hnd1) as [Hnd' Hin]. split; [done|].
      intros x. rewrite Hin, elem_of_app, list_elem_of_singleton, elem_of_cons.
      tauto.
Qed.

Lemma uniq_NoDup values : NoDup (uniq values).
Proof. apply uniq_from. constructor. Qed.

Lemma uniq_elem values x : x ∈ uniq values ↔ x ∈ values.
Proof.
  unfold uniq. destruct (uniq_from [] values) as [_ Hin]; [constructor|].
  rewrite Hin, elem_of_nil. tauto.
Qed.

(** Filtering on either of two exclusive conditions. *)
Lemma filter_either {A} (P Q : A → Prop)
    `{!∀ x, Decision (P x), !∀ x, Decision (Q x)} (l : list A) :
  (∀ x, P x → Q x → False) →
  filter (λ x, P x ∨ Q x) l ≡ₚ filter P l ++ filter Q l.
Proof.
  intros Hexcl. induction l as [|x l IH]; [done|].
  rewrite !filter_cons.
  destruct (decide (P x)) as [HP|HP]; destruct (decide (Q x)) as [HQ|HQ].
  - by destruct (Hexcl x).
  - rewrite decide_True by by left. simpl. by rewrite IH.
  - rewrite decide_True by by right. rewrite IH.
    by rewrite <- Permutation_middle.
  - rewrite decide_False by tauto. done.
Qed.

(** Grouping a list by distinct keys shows every element with a listed key
    once, and no other element. *)
Lemma grouped_by_keys {A} (key : A → string) (keys : list string) (l : list A) :
  NoDup keys →
  concat ((λ k, filter (λ x, key x = k) l) <$> keys)
  ≡ₚ filter (λ x, key x ∈ keys) l.
Proof.
  induction keys as [|k keys IH]; intros Hnd.
  - simpl. rewrite (list_filter_iff _ (λ _, False)).
    + by induction l.
    + intros x. rewrite elem_of_nil. tauto.
  - apply NoDup_cons in Hnd as [Hk Hnd].
    rewrite fmap_cons. cbn [concat]. rewrite IH by done.
    rewrite <- filter_either.
    + rewrite (list_filter_iff (λ x, key x ∈ k :: keys)
                 (λ x, key x = k ∨ key x ∈ keys)); [done|].
      intros x. apply elem_of_cons.
    + intros x Heq Hin. apply Hk. by rewrite <- Heq.
Qed.

(** X12: the menu page shows every fetched dish exactly once: the
    categories are distinct, there is one section for each, each section
    holds the dishes of its category and at least one, and all sections
    together hold the fetched dishes. *)
Theorem sections_show_each_dish_once dishes :
  NoDup (Menu.categories dishes)
  ∧ (Menu.sections dishes).*1 = Menu.categories dishes
  ∧ concat (Menu.sections dishes).*2 ≡ₚ dishes
  ∧ ∀ c ds, (c, ds) ∈ Menu.sections dishes →
      ds ≠ [] ∧ ∀ d, d ∈ ds ↔ d ∈ dishes ∧ category d = c.
Proof.
  split_and!.
  - apply uniq_NoDup.
  - unfold Menu.sections. rewrite <- list_fmap_compose.
    rewrite <- (list_fmap_id (Menu.categories dishes)) at 2.
    by apply list_fmap_ext.
  - unfold Menu.sections. rewrite <- list_fmap_compose.
    rewrite (list_fmap_ext _ (λ k, filter (λ x, category x = k) dishes)
               (Menu.categories dishes)) by done.
    rewrite grouped_by_keys by apply uniq_NoDup.
    rewrite filter_all_kept; [done|].
    intros d Hd. apply uniq_elem. by apply list_elem_of_fmap_2.
  - intros c ds Hin. unfold Menu.sections in Hin.
    apply list_elem_of_fmap in Hin as (c' & [= -> ->] & Hc).
    apply uniq_elem, list_elem_of_fmap in Hc as (d & -> & Hd).
    split.
    + intros Hempty.
      apply (filter_nil_not_elem_of _ _ d) in Hempty; done.
    + intros d'. rewrite list_elem_of_filter. tauto.
Qed.

Lemma find_first {A} (p : A → bool) (l : list A) (x : A) :
  List.find p l = Some x →
  ∃ l1 l2, l = l1 ++ x :: l2 ∧ p x = true ∧ ∀ y, y ∈ l1 → p y = false.
Proof.
  induction l as [|a l IH]; [done|]. cbn [find].
  destruct (p a) eqn:Ha.
  - intros [= ->]. exists [], l. split_and!; [done..|].
    intros y Hy. by apply elem_of_nil in Hy.
  - intros Hfind. destruct (IH Hfind) as (l1 & l2 & -> & Hx & Hbefore).
    exists (a :: l1), l2. split_and!; [done..|].
    intros y Hy. apply elem_of_cons in Hy as [->|Hy]; [done|]. by apply Hbefore.
Qed.

(** X13: the kids menu has one button per category, in the order of the
    categories, and the button of a category opens the first fetched dish of
    that category: no category is left without a button, and the other
    dishes of a category cannot be opened. *)
Theorem kids_buttons_open_first_dish dishes :
  (MenuKids.buttons dishes).*1 = Menu.categories dishes
  ∧ ∀ c d, (c, d) ∈ MenuKids.buttons dishes →
      category d = c
      ∧ ∃ before after, dishes = before ++ d :: after
                        ∧ ∀ d', d' ∈ before → category d' ≠ c.
Proof.
  split.
  - unfold MenuKids.buttons.
    assert (∀ cs, (∀ c, c ∈ cs → c ∈ category <$> dishes) →
              (omap (λ c, match List.find (λ d, bool_decide (category d = c)) dishes with
                          | Some dish => Some (c, dish)
                          | None => None
                          end) cs).*1 = cs) as Hall.
    { induction cs as [|c cs IH]; intros Hcs; [done|].
      cbn [omap list_omap].
      destruct (List.find _ dishes) as [d|] eqn:Hfind.
      - rewrite fmap_cons. cbn [fst]. f_equal. apply IH.
        intros c' Hc'. by apply Hcs, list_elem_of_further.
      - exfalso.
        destruct (list_elem_of_fmap_1 category dishes c) as (d & -> & Hd).
        { apply Hcs, list_elem_of_here. }
        apply list_elem_of_In in Hd.
        pose proof (find_none _ _ Hfind d Hd) as Hno. simpl in Hno.
        by apply bool_decide_eq_false in Hno. }
    apply Hall. intros c Hc. by apply uniq_elem.
  - intros c d Hin. unfold MenuKids.buttons in Hin.
    apply list_elem_of_omap in Hin as (c' & _ & Hbutton).
    destruct (List.find _ dishes) as [d'|] eqn:Hfind; [|done].
    injection Hbutton as -> ->.
    apply find_first in Hfind as (before & after & -> & Hd & Hbefore).
    apply bool_decide_eq_true in Hd. split; [done|].
    exists before, after. split; [done|].
    intros d' Hd'. specialize (Hbefore d' Hd').
    by apply bool_decide_eq_false in Hbefore.
Qed.

(** X14: the option cards of the staff page.  With distinct group ids,
    the cards together show each option whose group is listed exactly once,
    under that group, and show no option of a group that is not listed. *)
Theorem option_cards_show_listed_groups
    (optionGroups : list Options.CategoryOptionGroup)
    (options : list Options.CategoryOption) :
  NoDup (Options.id <$> optionGroups) →
  (Options.cards optionGroups options).*1 = optionGroups
  ∧ concat (Options.cards optionGroups options).*2
    ≡ₚ filter (λ opt, Options.option_group_id opt ∈ Options.id <$> optionGroups)
         options
  ∧ ∀ group opts opt, (group, opts) ∈ Options.cards optionGroups options →
      (opt ∈ opts ↔ opt ∈ options ∧ Options.option_group_id opt = Options.id group).
Proof.
  intros Hnd. unfold Options.cards. split_and!.
  - rewrite <- list_fmap_compose.
    rewrite <- (list_fmap_id optionGroups) at 2. by apply list_fmap_ext.
  - rewrite <- list_fmap_compose.
    rewrite <- (grouped_by_keys Options.option_group_id) by done.
    by rewrite <- list_fmap_compose.
  - intros group opts opt Hin.
    apply list_elem_of_fmap in Hin as (g & [= -> ->] & _).
    rewrite list_elem_of_filter. tauto.
Qed.
End Display.

Lemma option_cards_show_listed_groups_witness :
  concat (Options.cards [Sample.breadGroup]
            [Sample.ryeOption; Sample.strayOption]).*2
  ≡ₚ [Sample.ryeOption].
Proof.
  assert (NoDup (Options.id <$> [Sample.breadGroup])) as Hnd
    by apply NoDup_singleton.
  destruct (option_cards_show_listed_groups [Sample.breadGroup]
              [Sample.ryeOption; Sample.strayOption] Hnd) as (_ & Hshown & _).
  rewrite Hshown. reflexivity.
Defined.

(** ** Writes of the staff pages *)

Section StaffWrites.
Import Orders.

(** X15: [updateOrderStatus] writes the row of the given id and nothing
    else: the table keeps its ids, every other row is as it was, an id the
    table does not hold changes nothing, and a rejected update changes
    nothing. *)
Theorem updateOrderStatus_writes_one_row (db : gmap string Order)
    (orderId : string) (newStatus : OrderStatus) (ok : bool) :
  dom (updateOrderStatus db orderId newStatus ok).1 = dom db
  ∧ (∀ k, k ≠ orderId →
       (updateOrderStatus db orderId newStatus ok).1 !! k = db !! k)
  ∧ (db !! orderId = None → (updateOrderStatus db orderId newStatus ok).1 = db)
  ∧ (updateOrderStatus db orderId newStatus false).1 = db.
Proof.
  unfold updateOrderStatus. split_and!.
  - destruct ok; cbn [fst]; [apply dom_alter_L|done].
  - intros k Hk. destruct ok; cbn [fst]; [|done]. by rewrite lookup_alter_ne.
  - intros Hmissing. destruct ok; cbn [fst]; [|done].
    apply map_eq. intros k. destruct (decide (orderId = k)) as [<-|Hne].
    + by rewrite lookup_alter_eq, Hmissing.
    + by rewrite lookup_alter_ne.
  - reflexivity.
Qed.

Lemma updateOrderStatus_writes_one_row_witness :
  (updateOrderStatus {[ "order-7" := Sample.order7 ready ]} "order-9" served true).1
  = {[ "order-7" := Sample.order7 ready ]}.
Proof.
  destruct (updateOrderStatus_writes_one_row
              {[ "order-7" := Sample.order7 ready ]} "order-9" served true)
    as (_ & _ & Hmissing & _).
  apply Hmissing. apply lookup_singleton_ne. discriminate.
Defined.

(** X16: an accepted status update is not guarded by the row's current
    status: the row gets the status of the button that was clicked, which
    follows the status the button was rendered from, whatever the row holds
    by then; of two accepted updates of an order the last one wins. *)
Theorem updateOrderStatus_last_write_wins (db : gmap string Order)
    (shown current : Order) (orderId : string) (s1 s2 newStatus : OrderStatus) :
  (updateOrderStatus (updateOrderStatus db orderId s1 true).1 orderId s2 true).1
  = (updateOrderStatus db orderId s2 true).1
  ∧ (db !! id shown = Some current →
     (id shown, newStatus) ∈ statusButtons shown →
     (updateOrderStatus db (id shown) newStatus true).1 !! id shown
     = Some (set_status newStatus current)
     ∧ next (status shown) = Some newStatus).
Proof.
  split.
  - unfold updateOrderStatus. cbn [fst]. apply map_eq. intros k.
    destruct (decide (orderId = k)) as [<-|Hne].
    + rewrite !lookup_alter_eq. by destruct (db !! orderId).
    + by rewrite !lookup_alter_ne.
  - intros Hrow Hbutton. apply statusButtons_next in Hbutton as [_ Hnext].
    split; [|done]. unfold updateOrderStatus. cbn [fst].
    by rewrite lookup_alter_eq, Hrow.
Qed.

(** A button rendered while the order was [received], clicked when the row
    holds [ready] already: the order goes back to [preparing]. *)
Lemma updateOrderStatus_last_write_wins_witness :
  (updateOrderStatus {[ "order-7" := Sample.order7 ready ]} "order-7" preparing true).1
    !! "order-7" = Some (Sample.order7 preparing)
  ∧ (rank preparing < rank ready)%nat.
Proof.
  split; [|simpl; lia].
  destruct (updateOrderStatus_last_write_wins
              {[ "order-7" := Sample.order7 ready ]}
              (Sample.order7 received) (Sample.order7 ready)
              "order-7" received received preparing) as [_ Hstale].
  apply Hstale.
  - apply lookup_singleton_eq.
  - apply list_elem_of_here.
Defined.
End StaffWrites.

Section TableSwitch.
Import Tables.

(** X17: the switch of a table.  [toggleActive] writes the negation of the
    state the switch showed: when that is the row's state the row is
    flipped, and a second toggle from the new state restores the table; when
    the row holds the other state already the accepted write changes
    nothing; an unknown id or a rejected write changes nothing. *)
Theorem toggleActive_flips (db : gmap string Table) (key : string)
    (table : Table) (currentState : bool) (message : string) :
  (db !! key = Some table →
     (is_active table = currentState →
        (toggleActive db key currentState None).1 !! key
        = Some (set_active (negb currentState) table)
        ∧ (toggleActive (toggleActive db key currentState None).1 key
             (negb currentState) None).1 = db)
     ∧ (is_active table = negb currentState →
          (toggleActive db key currentState None).1 = db))
  ∧ (db !! key = None → (toggleActive db key currentState None).1 = db)
  ∧ (toggleActive db key currentState (Some message)).1 = db
  ∧ ∀ k, k ≠ key → (toggleActive db key currentState None).1 !! k = db !! k.
Proof.
  unfold toggleActive. cbn [fst]. split_and!.
  - intros Hrow. split.
    + intros Hstate. split; [by rewrite lookup_alter_eq, Hrow|].
      apply map_eq. intros k. destruct (decide (key = k)) as [<-|Hne].
      * rewrite !lookup_alter_eq, Hrow. simpl. f_equal.
        destruct table. simpl in *. rewrite negb_involutive. by subst.
      * by rewrite !lookup_alter_ne.
    + intros Hstate. apply map_eq. intros k.
      destruct (decide (key = k)) as [<-|Hne].
      * rewrite lookup_alter_eq, Hrow. simpl. f_equal.
        destruct table. simpl in *. by subst.
      * by rewrite lookup_alter_ne.
  - intros Hmissing. apply map_eq. intros k.
    destruct (decide (key = k)) as [<-|Hne].
    + by rewrite lookup_alter_eq, Hmissing.
    + by rewrite lookup_alter_ne.
  - reflexivity.
  - intros k Hk. by rewrite lookup_alter_ne.
Qed.

Lemma toggleActive_flips_witness :
  (toggleActive {[ "t-3" := Sample.table3 true ]} "t-3" true None).1 !! "t-3"
    = Some (Sample.table3 false)
  ∧ (toggleActive {[ "t-3" := Sample.table3 true ]} "t-3" false None).1
    = {[ "t-3" := Sample.table3 true ]}
  ∧ (toggleActive {[ "t-3" := Sample.table3 true ]} "t-9" true None).1
    = {[ "t-3" := Sample.table3 true ]}.
Proof.
  destruct (toggleActive_flips {[ "t-3" := Sample.table3 true ]} "t-3"
              (Sample.table3 true) true EmptyString) as (Hrow & _).
  destruct (toggleActive_flips {[ "t-3" := Sample.table3 true ]} "t-3"
              (Sample.table3 true) false EmptyString) as (Hstale & _).
  destruct (toggleActive_flips {[ "t-3" := Sample.table3 true ]} "t-9"
              (Sample.table3 true) true EmptyString) as (_ & Hmissing & _).
  split_and!.
  - apply Hrow; [apply lookup_singleton_eq|reflexivity].
  - apply Hstale; [apply lookup_singleton_eq|reflexivity].
  - apply Hmissing. apply lookup_singleton_ne. discriminate.
Defined.
End TableSwitch.

Section DishForm.
Import Dishes.
Context {number : Type}.
Variable toString : number → string.
Variable parseFloat : string → number.

(** X18: opening the edit form on a dish and submitting it unchanged
    writes back the dish's name and category, its description with an empty
    description turned into null, and its availability with null turned into
    true; the price is written back when reading the printed price gives the
    price. *)
Theorem edit_then_submit (dish : Row (number:=number)) :
  data_name (dishData parseFloat (handleEdit toString dish)) = name dish
  ∧ data_category (dishData parseFloat (handleEdit toString dish)) = category dish
  ∧ data_description (dishData parseFloat (handleEdit toString dish))
    = (if bool_decide (description dish = Some EmptyString) then None
       else description dish)
  ∧ data_is_available (dishData parseFloat (handleEdit toString dish))
    = default true (is_available dish)
  ∧ (parseFloat (toString (price dish)) = price dish →
       data_price (dishData parseFloat (handleEdit toString dish)) = price dish).
Proof.
  unfold dishData, handleEdit. simpl. split_and!; try done.
  destruct (description dish) as [text|]; simpl.
  - destruct (decide (text = EmptyString)) as [->|Hne].
    + by rewrite !bool_decide_eq_true_2.
    + rewrite !bool_decide_eq_false_2; [done| |done]. congruence.
  - done.
Qed.
End DishForm.

Lemma edit_then_submit_witness :
  Dishes.data_price
    (Dishes.dishData Sample.readZ (Dishes.handleEdit Sample.showZ Sample.soupRow))
  = 6.
Proof.
  destruct (edit_then_submit Sample.showZ Sample.readZ Sample.soupRow)
    as (_ & _ & _ & _ & Hprice).
  apply Hprice. reflexivity.
Defined.

Section Quantities.

(** X19: only the quantity 0 removes a line.  [updateCartItem] shortens the
    cart by one line when the quantity is 0 and the index is that of a line,
    and keeps its length in every other case; a negative quantity is stored
    on the line as it is given. *)
Theorem updateCartItem_length_cases (prev : list Menu.CartItem)
    (itemIndex quantity : Z) (comment : option string) :
  length (Menu.updateCartItem prev itemIndex quantity comment)
  = (if bool_decide (quantity = 0 ∧ 0 ≤ itemIndex < Z.of_nat (length prev))
     then (length prev - 1)%nat else length prev)
  ∧ (quantity < 0 → 0 ≤ itemIndex < Z.of_nat (length prev) →
       Menu.quantity <$> Menu.updateCartItem prev itemIndex quantity comment
                           !! Z.to_nat itemIndex
       = Some quantity).
Proof.
  split.
  - case_bool_decide as Hcase.
    + destruct Hcase as [-> Hin].
      rewrite updateCartItem_zero, removeFromCart_delete, decide_True by lia.
      apply delete_shorter. lia.
    + destruct (decide (quantity = 0)) as [->|Hq].
      * rewrite updateCartItem_zero, removeFromCart_outside; [done|]. tauto.
      * by apply updateCartItem_length.
  - intros Hneg Hin. rewrite updateCartItem_lookup by lia.
    destruct (prev !! Z.to_nat itemIndex) as [item|] eqn:Hitem.
    + simpl. by rewrite bool_decide_eq_true_2 by lia.
    + apply lookup_ge_None in Hitem. lia.
Qed.

Lemma updateCartItem_length_cases_witness :
  Menu.quantity <$> Menu.updateCartItem Sample.cart2 1 (-2) None !! 1%nat
  = Some (-2).
Proof.
  destruct (updateCartItem_length_cases Sample.cart2 1 (-2) None) as [_ Hneg].
  apply Hneg; simpl; lia.
Defined.

(** X20: on the options-less page an update with a quantity other than 0
    keeps the number of lines, writes the quantity and the comment on every
    line of the dish and leaves the other lines as they are; for a dish the
    cart does not hold it changes nothing. *)
Theorem plain_update_by_dish (plain : list MenuPlain.CartItem) (dishId : string)
    (quantity : Z) (comment : option string) :
  quantity ≠ 0 →
  length (MenuPlain.updateCartItem plain dishId quantity comment) = length plain
  ∧ (∀ (j : nat) item, plain !! j = Some item →
       MenuPlain.updateCartItem plain dishId quantity comment !! j
       = Some (if bool_decide (dish_id (MenuPlain.dish item) = dishId)
               then {| MenuPlain.dish := MenuPlain.dish item;
                       MenuPlain.quantity := quantity;
                       MenuPlain.comment := comment |}
               else item))
  ∧ (dishId ∉ (λ item, dish_id (MenuPlain.dish item)) <$> plain →
       MenuPlain.updateCartItem plain dishId quantity comment = plain).
Proof.
  intros Hq. unfold MenuPlain.updateCartItem.
  rewrite bool_decide_eq_false_2 by done. split_and!.
  - apply length_fmap.
  - intros j item Hitem. by rewrite list_lookup_fmap, Hitem.
  - intros Habsent. rewrite <- (list_fmap_id plain) at 2.
    apply list_fmap_ext. intros j item Hitem. simpl.
    rewrite bool_decide_eq_false_2; [done|]. intros Heq. apply Habsent.
    rewrite <- Heq.
    apply (list_elem_of_fmap_2 (λ item, dish_id (MenuPlain.dish item))).
    by eapply list_elem_of_lookup_2.
Qed.

Lemma plain_update_by_dish_witness :
  MenuPlain.updateCartItem [Sample.plain_line Sample.burger 2] "d-burger" 5
    (Some "rare") !! 0%nat
  = Some {| MenuPlain.dish := Sample.burger; MenuPlain.quantity := 5;
            MenuPlain.comment := Some "rare" |}
  ∧ MenuPlain.updateCartItem [Sample.plain_line Sample.burger 2] "d-fries" 5 None
    = [Sample.plain_line Sample.burger 2].
Proof.
  assert (5 ≠ 0) as Hq by lia.
  destruct (plain_update_by_dish [Sample.plain_line Sample.burger 2] "d-burger" 5
              (Some "rare") Hq) as (_ & Hline & _).
  destruct (plain_update_by_dish [Sample.plain_line Sample.burger 2] "d-fries" 5
              None Hq) as (_ & _ & Habsent).
  split.
  - apply (Hline 0%nat (Sample.plain_line Sample.burger 2)). reflexivity.
  - apply Habsent. simpl. intros Hin.
    apply list_elem_of_singleton in Hin. discriminate.
Defined.
End Quantities.

Section DisplaySamples.

Lemma sections_show_each_dish_once_witness :
  (∀ d, d ∈ [Sample.burger; Sample.cheeseburger]
        ↔ d ∈ [Sample.burger; Sample.fries; Sample.cheeseburger]
          ∧ category d = "burgers")
  ∧ [Sample.burger; Sample.cheeseburger] ≠ [].
Proof.
  destruct (sections_show_each_dish_once
              [Sample.burger; Sample.fries; Sample.cheeseburger])
    as (_ & _ & _ & Hsection).
  destruct (Hsection "burgers" [Sample.burger; Sample.cheeseburger])
    as [Hnonempty Hdishes].
  - apply list_elem_of_here.
  - split; [exact Hdishes|exact Hnonempty].
Defined.

Lemma kids_buttons_open_first_dish_witness :
  MenuKids.buttons [Sample.burger; Sample.fries; Sample.cheeseburger]
  = [("burgers", Sample.burger); ("sides", Sample.fries)]
  ∧ category Sample.burger = "burgers".
Proof.
  split; [reflexivity|].
  destruct (kids_buttons_open_first_dish
              [Sample.burger; Sample.fries; Sample.cheeseburger]) as [_ Hbutton].
  destruct (Hbutton "burgers" Sample.burger) as [Hcategory _].
  - apply list_elem_of_here.
  - exact Hcategory.
Defined.
End DisplaySamples.
